(** * crypto-news-agent, chat client: stream decoder and chat page

    A shallow embedding of the TypeScript client of the crypto news agent:

    - [askQuestionStream] (apis/cryptoNewsAPI.ts): the reader loop that
      decodes the server-sent event stream of [POST /api/v1/ask] and invokes
      the three handlers [onChunk], [onComplete], [onError];
    - [ChatInput.handleSubmit] (components/ChatInput.tsx);
    - [ChatPage] (pages/ChatPage.tsx): the React state of the page and the
      handlers that update it;
    - [App] and [Net]: the page over time, as a sequence of events, with
      the callbacks of its requests ([App]) or with the decoders of its
      requests advancing turn by turn and holding their abort signal
      ([Net]).

    JavaScript strings are sequences of UTF-16 code units, modelled as
    [list N].  Handler invocations are recorded in a trace of [Effect]s.
    The platform's [JSON.parse] is a parameter of the decoder; [Json.parse]
    is an implementation of the JSON grammar used to run the model on
    concrete inputs. *)

From Stdlib Require Import NArith ZArith Ascii String DecimalString.
From stdpp Require Import base tactics option list numbers strings gmap.

#[local] Set Warnings "-register-all".
Local Open Scope N_scope.

(* ================================================================== *)
(** * JavaScript strings *)

Abbreviation jsstring := (list N).

(** A string literal of the source: its code units. *)
Definition lit (s : string) : jsstring :=
  N_of_ascii <$> list_ascii_of_string s.

Arguments lit : simpl never.

Definition LF : N := 10.

(** ECMAScript WhiteSpace and LineTerminator code points: what
    [String.prototype.trim] removes. *)
Definition isWhiteSpace (c : N) : bool :=
  (c =? 9) || (c =? 10) || (c =? 11) || (c =? 12) || (c =? 13)
  || (c =? 32) || (c =? 160) || (c =? 5760)
  || ((8192 <=? c) && (c <=? 8202))
  || (c =? 8232) || (c =? 8233) || (c =? 8239) || (c =? 8287)
  || (c =? 12288) || (c =? 65279).

Fixpoint trimStart (s : jsstring) : jsstring :=
  match s with
  | [] => []
  | c :: s' => if isWhiteSpace c then trimStart s' else s
  end.

Definition trimEnd (s : jsstring) : jsstring :=
  reverse (trimStart (reverse s)).

(** [s.trim()] *)
Definition trim (s : jsstring) : jsstring := trimEnd (trimStart s).

(** [s.startsWith(search)] *)
Fixpoint startsWith (s search : jsstring) {struct search} : bool :=
  match search, s with
  | [], _ => true
  | _ :: _, [] => false
  | c :: search', d :: s' => (c =? d) && startsWith s' search'
  end.

(** [s.slice(n)] for a non-negative [n]. *)
Definition slice (n : nat) (s : jsstring) : jsstring := drop n s.

(** [s.includes(search)] *)
Fixpoint includes (s search : jsstring) : bool :=
  startsWith s search
  || match s with
     | [] => false
     | _ :: s' => includes s' search
     end.

(** [s.split('\n')]: the pieces between line feeds; always at least one
    piece, and a trailing line feed yields a last empty piece. *)
Fixpoint split (s : jsstring) : list jsstring :=
  match s with
  | [] => [[]]
  | c :: s' =>
      if decide (c = LF) then [] :: split s'
      else match split s' with
           | l :: ls => (c :: l) :: ls
           | [] => [[c]]
           end
  end.

(** Truthiness of a string: non-empty. *)
Definition nonEmpty (s : jsstring) : bool :=
  match s with [] => false | _ :: _ => true end.

(** Decimal digits of a non-negative integer, as in a template literal. *)
Definition decimal (n : N) : jsstring :=
  lit (NilZero.string_of_uint (N.to_uint n)).

(* ================================================================== *)
(** * JavaScript values *)

(** A JSON number literal [mantissa * 10 ^ exponent]; the double the
    literal denotes is compared with zero only. *)
Record NumberLiteral := { mantissa : Z; exponent : Z }.

(** The literal rounds to a non-zero double: its magnitude exceeds half of
    the least subnormal, [2 ^ -1075] (a tie rounds to even, that is, to
    zero). *)
Definition nonZeroDouble (d : NumberLiteral) : bool :=
  if (0 <=? exponent d)%Z then negb (mantissa d =? 0)%Z
  else (10 ^ (- exponent d) <? Z.abs (mantissa d) * 2 ^ 1075)%Z.

Inductive JSValue :=
| JUndefined
| JNull
| JBool (b : bool)
| JNumber (d : NumberLiteral)
| JString (s : jsstring)
| JArray (items : list JSValue)
| JObject (props : list (jsstring * JSValue)).

(** ToBoolean *)
Definition toBoolean (v : JSValue) : bool :=
  match v with
  | JUndefined | JNull => false
  | JBool b => b
  | JNumber d => nonZeroDouble d
  | JString s => nonEmpty s
  | JArray _ | JObject _ => true
  end.

(** The payload properties the decoder reads. *)
Inductive PayloadKey := K_chunk | K_sources | K_session_id | K_error.

Definition keyName (k : PayloadKey) : jsstring :=
  match k with
  | K_chunk => lit "chunk"
  | K_sources => lit "sources"
  | K_session_id => lit "session_id"
  | K_error => lit "error"
  end.

Fixpoint assoc (k : jsstring) (props : list (jsstring * JSValue)) : JSValue :=
  match props with
  | [] => JUndefined
  | (k', v) :: props' => if decide (k' = k) then v else assoc k props'
  end.

(** [data.key] for one of the payload keys.  [None] is the TypeError of a
    property access on [null] or [undefined]; primitives and arrays have
    none of these properties; an object is held with one entry per key. *)
Definition getField (data : JSValue) (k : PayloadKey) : option JSValue :=
  match data with
  | JUndefined | JNull => None
  | JObject props => Some (assoc (keyName k) props)
  | _ => Some JUndefined
  end.

(* ================================================================== *)
(** * askQuestionStream *)

(** What the caller of [askQuestionStream] observes: the handler calls, and
    the [console.error] of the inner [catch] for a payload that does not
    parse or whose field cannot be read.  The trace records the handler
    calls as they are made; a handler that throws would add a
    [console.error] after its call, which the trace does not record (of
    the callbacks of the page only [onError] can throw, on an error
    payload that is not a string, an input [ChatPage.deliver] leaves
    undefined). *)
Inductive Effect :=
| OnChunk (c : JSValue)
| OnComplete (srcs sessionId : JSValue)
| OnError (msg : JSValue)
| ConsoleError.

(** A caught value: an [Error] instance with its [name] and [message], or
    anything else. *)
Inductive Thrown :=
| ErrorObject (name message : jsstring)
| NotAnError.

(** How the response body ends: [read()] answers [done], or rejects. *)
Inductive StreamEnd :=
| Closed
| Errored (e : Thrown).

(** The response body as the reader sees it: the text
    [decoder.decode(value)] of each successful [read()], in order, then the
    end of the stream. *)
Record Body := { reads : list jsstring; ending : StreamEnd }.

(** The outcome of [fetch]. *)
Inductive FetchResult :=
| FetchRejected (e : Thrown)
| Response (ok : bool) (status : N) (body : option Body).

(** [currentEvent] and [currentData], the variables of the line loop. *)
Record LineState := { currentEvent : jsstring; currentData : jsstring }.

Section Decoder.

(** [JSON.parse]: [None] when it throws a SyntaxError. *)
Variable JSON_parse : jsstring → option JSValue.

(** The dispatch in the inner [try], lines 78-86; [None] is a TypeError
    thrown by a property access. *)
Definition dispatchParsed (ev : jsstring) (data : JSValue) : option (list Effect) :=
  c1 ← (if decide (ev = lit "answer_chunk")
        then toBoolean <$> getField data K_chunk else Some false);
  if c1 : bool then
    c ← getField data K_chunk; Some [OnChunk c]
  else
    c2 ← (if decide (ev = lit "answer_complete")
          then toBoolean <$> getField data K_sources else Some false);
    if c2 : bool then
      s ← getField data K_sources;
      sid ← getField data K_session_id;
      Some [OnComplete s sid]
    else if decide (ev = lit "error") then
      e ← getField data K_error;
      Some [OnError (if toBoolean e then e else JString (lit "Unknown error"))]
    else Some [].

(** The [try]/[catch] of lines 77-89. *)
Definition dispatch (ev data : jsstring) : list Effect :=
  match JSON_parse data with
  | None => [ConsoleError]
  | Some d => default [ConsoleError] (dispatchParsed ev d)
  end.

(** One iteration of [for (const line of lines)]. *)
Definition processLine (st : LineState) (line : jsstring) : LineState * list Effect :=
  if startsWith line (lit "event: ") then
    ({| currentEvent := trim (slice 7 line); currentData := currentData st |}, [])
  else if startsWith line (lit "data: ") then
    let d := trim (slice 6 line) in
    ({| currentEvent := currentEvent st; currentData := d |},
     if nonEmpty d && nonEmpty (currentEvent st)
     then dispatch (currentEvent st) d else [])
  else (st, []).

Fixpoint processLines (st : LineState) (lines : list jsstring) : LineState * list Effect :=
  match lines with
  | [] => (st, [])
  | line :: lines' =>
      let '(st1, out1) := processLine st line in
      let '(st2, out2) := processLines st1 lines' in
      (st2, out1 ++ out2)
  end.

(** The body of the [while] loop for one read: the line state starts
    afresh for every read. *)
Definition processChunk (text : jsstring) : list Effect :=
  (processLines {| currentEvent := []; currentData := [] |} (split text)).2.

(** The [while (true)] loop over the reads that succeed. *)
Definition readLoop (texts : list jsstring) : list Effect :=
  concat (processChunk <$> texts).

(** The [try] block: the effects, and the value thrown out of it if any. *)
Definition tryBlock (r : FetchResult) : list Effect * option Thrown :=
  match r with
  | FetchRejected e => ([], Some e)
  | Response false status _ =>
      ([], Some (ErrorObject (lit "Error") (lit "HTTP error! status: " ++ decimal status)))
  | Response true _ None =>
      ([], Some (ErrorObject (lit "Error") (lit "No response body")))
  | Response true _ (Some b) =>
      (readLoop (reads b),
       match ending b with Closed => None | Errored e => Some e end)
  end.

(** The outer [catch], lines 94-100. *)
Definition catchBlock (e : Thrown) : list Effect :=
  match e with
  | ErrorObject name message =>
      if decide (name = lit "AbortError")
      then [OnError (JString (lit "Request cancelled"))]
      else [OnError (JString message)]
  | NotAnError => [OnError (JString (lit "Unknown error"))]
  end.

Definition askQuestionStream (r : FetchResult) : list Effect :=
  let '(out, thrown) := tryBlock r in
  out ++ from_option catchBlock [] thrown.

End Decoder.

(* ================================================================== *)
(** * A JSON parser

    The grammar [JSON.parse] accepts (ECMA-404): used to run the decoder on
    concrete streams. *)

Module Json.

Definition isWs (c : N) : bool :=
  (c =? 9) || (c =? 10) || (c =? 13) || (c =? 32).

Fixpoint skipWs (s : jsstring) : jsstring :=
  match s with
  | c :: s' => if isWs c then skipWs s' else s
  | [] => []
  end.

Definition isDigit (c : N) : bool := (48 <=? c) && (c <=? 57).

Definition hexValue (c : N) : option N :=
  if isDigit c then Some (c - 48)
  else if (97 <=? c) && (c <=? 102) then Some (c - 87)
  else if (65 <=? c) && (c <=? 70) then Some (c - 55)
  else None.

(** The characters of a string literal after its opening quote, up to the
    closing quote. *)
Fixpoint parseChars (s : jsstring) : option (jsstring * jsstring) :=
  match s with
  | [] => None
  | 34 :: rest => Some ([], rest)
  | 92 :: 117 :: a :: b :: c :: d :: rest =>
      a ← hexValue a; b ← hexValue b; c ← hexValue c; d ← hexValue d;
      '(cs, rest') ← parseChars rest;
      Some ((a * 4096 + b * 256 + c * 16 + d) :: cs, rest')
  | 92 :: e :: rest =>
      u ← (if e =? 34 then Some 34 else if e =? 92 then Some 92
           else if e =? 47 then Some 47 else if e =? 98 then Some 8
           else if e =? 102 then Some 12 else if e =? 110 then Some 10
           else if e =? 114 then Some 13 else if e =? 116 then Some 9
           else None);
      '(cs, rest') ← parseChars rest;
      Some (u :: cs, rest')
  | c :: rest =>
      if (c <? 32) || (c =? 92) then None
      else '(cs, rest') ← parseChars rest; Some (c :: cs, rest')
  end.

Fixpoint spanDigits (s : jsstring) : jsstring * jsstring :=
  match s with
  | c :: s' =>
      if isDigit c then let '(ds, rest) := spanDigits s' in (c :: ds, rest)
      else ([], s)
  | [] => ([], [])
  end.

Definition digitsValue (ds : jsstring) : Z :=
  foldl (λ acc c, acc * 10 + Z.of_N (c - 48))%Z 0%Z ds.

(** number = [ minus ] int [ frac ] [ exp ] *)
Definition parseNumber (s : jsstring) : option (NumberLiteral * jsstring) :=
  let '(neg, s1) := match s with 45 :: s' => (true, s') | _ => (false, s) end in
  let '(int, s2) := spanDigits s1 in
  match int with
  | [] => None
  | d :: ds =>
      if (d =? 48) && nonEmpty ds then None else
      '(frac, s3) ← match s2 with
                    | 46 :: s' =>
                        let '(fs, r) := spanDigits s' in
                        if nonEmpty fs then Some (fs, r) else None
                    | _ => Some ([], s2)
                    end;
      '(e, s4) ← match s3 with
                 | c :: s' =>
                     if (c =? 101) || (c =? 69) then
                       let '(eneg, s'') :=
                         match s' with
                         | 45 :: t => (true, t)
                         | 43 :: t => (false, t)
                         | _ => (false, s')
                         end in
                       let '(es, r) := spanDigits s'' in
                       if nonEmpty es
                       then Some (if eneg : bool then (- digitsValue es)%Z
                                  else digitsValue es, r)
                       else None
                     else Some (0%Z, s3)
                 | [] => Some (0%Z, s3)
                 end;
      let m := digitsValue (int ++ frac) in
      Some ({| mantissa := if neg : bool then (- m)%Z else m;
               exponent := (e - Z.of_nat (length frac))%Z |}, s4)
  end.

(** [obj[k] = v]: a repeated key keeps its place and takes the later
    value. *)
Fixpoint setProp (k : jsstring) (v : JSValue) (props : list (jsstring * JSValue))
  : list (jsstring * JSValue) :=
  match props with
  | [] => [(k, v)]
  | (k', v') :: props' =>
      if decide (k' = k) then (k, v) :: props' else (k', v') :: setProp k v props'
  end.

Fixpoint parseValue (fuel : nat) (s : jsstring) : option (JSValue * jsstring) :=
  match fuel with
  | O => None
  | S n =>
      match skipWs s with
      | [] => None
      | c :: rest =>
          if c =? 123 then
            match skipWs rest with
            | 125 :: rest' => Some (JObject [], rest')
            | _ => parseMembers n [] rest
            end
          else if c =? 91 then
            match skipWs rest with
            | 93 :: rest' => Some (JArray [], rest')
            | _ => parseElements n [] rest
            end
          else if c =? 34 then
            '(cs, rest') ← parseChars rest; Some (JString cs, rest')
          else if startsWith (c :: rest) (lit "true") then Some (JBool true, drop 3 rest)
          else if startsWith (c :: rest) (lit "false") then Some (JBool false, drop 4 rest)
          else if startsWith (c :: rest) (lit "null") then Some (JNull, drop 3 rest)
          else '(d, rest') ← parseNumber (c :: rest); Some (JNumber d, rest')
      end
  end
with parseElements (fuel : nat) (acc : list JSValue) (s : jsstring)
  : option (JSValue * jsstring) :=
  match fuel with
  | O => None
  | S n =>
      '(v, rest) ← parseValue n s;
      match skipWs rest with
      | 44 :: rest' => parseElements n (v :: acc) rest'
      | 93 :: rest' => Some (JArray (reverse (v :: acc)), rest')
      | _ => None
      end
  end
with parseMembers (fuel : nat) (acc : list (jsstring * JSValue)) (s : jsstring)
  : option (JSValue * jsstring) :=
  match fuel with
  | O => None
  | S n =>
      match skipWs s with
      | 34 :: s1 =>
          '(k, s2) ← parseChars s1;
          match skipWs s2 with
          | 58 :: s3 =>
              '(v, rest) ← parseValue n s3;
              match skipWs rest with
              | 44 :: rest' => parseMembers n (setProp k v acc) rest'
              | 125 :: rest' => Some (JObject (setProp k v acc), rest')
              | _ => None
              end
          | _ => None
          end
      | _ => None
      end
  end.

(** [JSON.parse(text)]: one value between optional white space. *)
Definition parse (text : jsstring) : option JSValue :=
  '(v, rest) ← parseValue (2 * length text + 2) text;
  match skipWs rest with
  | [] => Some v
  | _ :: _ => None
  end.

End Json.

(* ================================================================== *)
(** * ChatInput *)

Module ChatInput.

(** [handleSubmit]: the new value of the text area, and the argument of
    [onSendMessage] when it is called. *)
Definition handleSubmit (message : jsstring) (isLoading disabled : bool)
  : jsstring * option jsstring :=
  if nonEmpty (trim message) && negb isLoading && negb disabled
  then ([], Some (trim message))
  else (message, None).

End ChatInput.

(* ================================================================== *)
(** * The request of the API *)

Inductive Role := user | assistant.

(** [ChatMessage] of the API: one turn of the history. *)
Record ChatTurn := { role : Role; content : jsstring; turnTimestamp : jsstring }.

Record AskRequest := {
  question : jsstring;
  session_id : jsstring;
  chat_history : list ChatTurn
}.

(* ================================================================== *)
(** * ChatPage *)

(** [ChatMessage] of the page. *)
Module Msg.

Record t := {
  id : jsstring;
  message : jsstring;
  isUser : bool;
  timestamp : jsstring;
  sources : option JSValue;
  isStreaming : option bool
}.

Definition setMessage (s : jsstring) (m : t) : t :=
  {| id := id m; message := s; isUser := isUser m; timestamp := timestamp m;
     sources := sources m; isStreaming := isStreaming m |}.

Definition setSources (v : JSValue) (m : t) : t :=
  {| id := id m; message := message m; isUser := isUser m;
     timestamp := timestamp m; sources := Some v; isStreaming := isStreaming m |}.

Definition setIsStreaming (b : bool) (m : t) : t :=
  {| id := id m; message := message m; isUser := isUser m;
     timestamp := timestamp m; sources := sources m; isStreaming := Some b |}.

End Msg.

Module ChatPage.

(** The React state of the page.  An [AbortController] is an object:
    the state holds its identity. *)
Record State := {
  messages : list Msg.t;
  sessionId : jsstring;
  isStreaming : bool;
  currentStreamingMessage : jsstring;
  abortController : option nat
}.

Definition setMessages (f : list Msg.t → list Msg.t) (st : State) : State :=
  {| messages := f (messages st); sessionId := sessionId st;
     isStreaming := isStreaming st;
     currentStreamingMessage := currentStreamingMessage st;
     abortController := abortController st |}.

Definition setIsStreaming (b : bool) (st : State) : State :=
  {| messages := messages st; sessionId := sessionId st; isStreaming := b;
     currentStreamingMessage := currentStreamingMessage st;
     abortController := abortController st |}.

Definition setCurrentStreamingMessage (f : jsstring → jsstring) (st : State) : State :=
  {| messages := messages st; sessionId := sessionId st;
     isStreaming := isStreaming st;
     currentStreamingMessage := f (currentStreamingMessage st);
     abortController := abortController st |}.

Definition setAbortController (c : option nat) (st : State) : State :=
  {| messages := messages st; sessionId := sessionId st;
     isStreaming := isStreaming st;
     currentStreamingMessage := currentStreamingMessage st;
     abortController := c |}.

(** The state of a page that has mounted: no message yet. *)
Definition initial (uuid : jsstring) : State :=
  {| messages := []; sessionId := uuid; isStreaming := false;
     currentStreamingMessage := []; abortController := None |}.

Definition cancelledText : jsstring := lit "Generation cancelled by user.".

Definition sorryText : jsstring :=
  lit "Sorry, I encountered an error while processing your question. Please try again.".

(** The filter of lines 55-60. *)
Definition isError (msg : Msg.t) : bool :=
  includes (Msg.message msg) (lit "Sorry, I encountered an error")
  || includes (Msg.message msg) (lit "Generation cancelled by user").

Definition toTurn (msg : Msg.t) : ChatTurn :=
  {| role := if Msg.isUser msg then user else assistant;
     content := Msg.message msg;
     turnTimestamp := Msg.timestamp msg |}.

(** [chatHistory], lines 54-65. *)
Definition chatHistory (messages : list Msg.t) : list ChatTurn :=
  toTurn <$> filter (λ msg, isError msg = false) messages.

(** [prev.find(m => m.id === tempMessageId)] *)
Definition find (tempMessageId : jsstring) (prev : list Msg.t) : option Msg.t :=
  snd <$> list_find (λ m, Msg.id m = tempMessageId) prev.

(** [prev.find(...)?.message + chunk || chunk] *)
Definition grown (tempMessageId chunk : jsstring) (prev : list Msg.t) : jsstring :=
  let s := match find tempMessageId prev with
           | Some m => Msg.message m ++ chunk
           | None => lit "undefined" ++ chunk
           end in
  if nonEmpty s then s else chunk.

(** [prev.map(msg => msg.id === tempMessageId ? f(msg) : msg)] *)
Definition mapTemp (tempMessageId : jsstring) (f : Msg.t → Msg.t) (prev : list Msg.t)
  : list Msg.t :=
  (λ msg, if decide (Msg.id msg = tempMessageId) then f msg else msg) <$> prev.

(** The [onChunk] callback, lines 69-78. *)
Definition onChunk (tempMessageId chunk : jsstring) (st : State) : State :=
  let st := setCurrentStreamingMessage (λ prev, prev ++ chunk) st in
  setMessages (λ prev,
    mapTemp tempMessageId (Msg.setMessage (grown tempMessageId chunk prev)) prev) st.

Definition finish (st : State) : State :=
  setAbortController None (setCurrentStreamingMessage (λ _, []) (setIsStreaming false st)).

(** The [onComplete] callback, lines 79-90. *)
Definition onComplete (tempMessageId : jsstring) (srcs sessionId : JSValue) (st : State)
  : State :=
  finish (setMessages
    (mapTemp tempMessageId (λ msg, Msg.setIsStreaming false (Msg.setSources srcs msg))) st).

Definition failed (tempMessageId : jsstring) (isCancellation : bool) (st : State) : State :=
  finish (setMessages
    (mapTemp tempMessageId (λ msg,
       Msg.setIsStreaming false
         (Msg.setMessage (if isCancellation then cancelledText else sorryText) msg))) st).

(** The [onError] callback, lines 91-113. *)
Definition onError (tempMessageId err : jsstring) (st : State) : State :=
  let isCancellation :=
    bool_decide (err = lit "Request cancelled")
    || includes err (lit "cancelled") || includes err (lit "aborted") in
  failed tempMessageId isCancellation st.

(** The [catch] of [handleStreamingResponse], lines 116-142. *)
Definition onCatch (tempMessageId : jsstring) (e : Thrown) (st : State) : State :=
  let isCancellation :=
    match e with
    | ErrorObject name message =>
        bool_decide (name = lit "AbortError")
        || includes message (lit "cancelled") || includes message (lit "aborted")
    | NotAnError => false
    end in
  failed tempMessageId isCancellation st.

(** [handleStreamingResponse] up to the call of [askQuestionStream]: the
    state updates and the request.  [render] is the state the component
    was rendered with, which the closure reads [messages] and [sessionId]
    from; [controller], [tempMessageId] and [now] are the new
    [AbortController], [crypto.randomUUID()] and
    [new Date().toISOString()]. *)
Definition handleStreamingResponse (render : State) (q : jsstring)
    (controller : nat) (tempMessageId now : jsstring) (st : State)
  : State * AskRequest :=
  let st := setIsStreaming true st in
  let st := setCurrentStreamingMessage (λ _, []) st in
  let st := setAbortController (Some controller) st in
  let tempMessage :=
    {| Msg.id := tempMessageId; Msg.message := []; Msg.isUser := false;
       Msg.timestamp := now; Msg.sources := None; Msg.isStreaming := Some true |} in
  let st := setMessages (λ prev, prev ++ [tempMessage]) st in
  (st, {| question := q; session_id := sessionId render;
          chat_history := chatHistory (messages render) |}).

(** [handleSendMessage] *)
Definition handleSendMessage (render : State) (message : jsstring)
    (userId now1 : jsstring) (controller : nat) (tempMessageId now2 : jsstring)
    (st : State) : State * AskRequest :=
  let userMessage :=
    {| Msg.id := userId; Msg.message := message; Msg.isUser := true;
       Msg.timestamp := now1; Msg.sources := None; Msg.isStreaming := None |} in
  let st := setMessages (λ prev, prev ++ [userMessage]) st in
  handleStreamingResponse render message controller tempMessageId now2 st.

(** [handleStopGeneration]; the second component is the set of the
    controllers whose signal is aborted. *)
Definition handleStopGeneration (render : State) (w : State * gset nat)
  : State * gset nat :=
  match abortController render with
  | Some c =>
      let st := finish w.1 in
      let st := setMessages (fmap (λ msg,
        if bool_decide (Msg.isStreaming msg = Some true)
        then Msg.setIsStreaming false
               (Msg.setMessage (Msg.message msg ++ [LF; LF] ++ cancelledText) msg)
        else msg)) st in
      (st, {[c]} ∪ w.2)
  | None => w
  end.

(** A handler invocation of the decoder, applied to the page.  The
    callbacks are typed [(chunk: string)] and [(error: string)]: a payload
    of another type is outside what is modelled. *)
Definition deliver (tempMessageId : jsstring) (e : Effect) (st : State) : option State :=
  match e with
  | OnChunk (JString c) => Some (onChunk tempMessageId c st)
  | OnComplete srcs sid => Some (onComplete tempMessageId srcs sid st)
  | OnError (JString m) => Some (onError tempMessageId m st)
  | ConsoleError => Some st
  | _ => None
  end.

Fixpoint deliverAll (tempMessageId : jsstring) (es : list Effect) (st : State)
  : option State :=
  match es with
  | [] => Some st
  | e :: es' => st' ← deliver tempMessageId e st; deliverAll tempMessageId es' st'
  end.

End ChatPage.

(* ================================================================== *)
(** * The page and its requests over time

    JavaScript runs one handler at a time: a run of the page is a sequence
    of events, each handled to its end on the state the previous one left,
    by a component rendered with that state.  Next to the React state the
    world records the signals that were aborted and, for every request that
    was started, how far it has come. *)

Module App.

Import ChatPage.

Inductive Status := InFlight | Completed | Failed | Cancelled.

#[global] Instance Status_eq_dec : EqDecision Status.
Proof. solve_decision. Defined.

Record Request := {
  tempId : jsstring;      (* the message the callbacks of the request update *)
  controller : nat;       (* its AbortController *)
  ask : AskRequest;       (* what was sent *)
  status : Status
}.

Record World := {
  page : State;
  aborted : gset nat;
  requests : list Request
}.

Inductive Event :=
| Submit (input userId now1 : jsstring) (c : nat) (tempMessageId now2 : jsstring)
    (* the form of ChatInput is submitted with [input] in the text area *)
| Handler (tempMessageId : jsstring) (e : Effect)
    (* the decoder of a request invokes one of its callbacks *)
| Stop.
    (* the Stop button is clicked *)

Definition start (uuid : jsstring) : World :=
  {| page := initial uuid; aborted := ∅; requests := [] |}.

(** A request leaves [InFlight] once, at its first terminal state. *)
Definition settle (s : Status) (r : Request) : Request :=
  match status r with
  | InFlight => {| tempId := tempId r; controller := controller r; ask := ask r; status := s |}
  | _ => r
  end.

Definition settleWhere (P : Request → bool) (s : Status) (rs : list Request) : list Request :=
  (λ r, if P r then settle s r else r) <$> rs.

Definition terminalStatus (e : Effect) : option Status :=
  match e with
  | OnComplete _ _ => Some Completed
  | OnError _ => Some Failed
  | _ => None
  end.

Definition step (w : World) (ev : Event) : option World :=
  match ev with
  | Submit input userId now1 c tempMessageId now2 =>
      let streaming := isStreaming (page w) in
      match (ChatInput.handleSubmit input streaming streaming).2 with
      | None => Some w
      | Some q =>
          let '(st, req) :=
            handleSendMessage (page w) q userId now1 c tempMessageId now2 (page w) in
          Some {| page := st; aborted := aborted w;
                  requests := requests w ++
                    [{| tempId := tempMessageId; controller := c; ask := req;
                        status := InFlight |}] |}
      end
  | Handler t e =>
      if bool_decide (t ∈ tempId <$> requests w) then
        st ← deliver t e (page w);
        Some {| page := st; aborted := aborted w;
                requests :=
                  match terminalStatus e with
                  | Some s => settleWhere (λ r, bool_decide (tempId r = t)) s (requests w)
                  | None => requests w
                  end |}
      else None
  | Stop =>
      let '(st, ab) := handleStopGeneration (page w) (page w, aborted w) in
      Some {| page := st; aborted := ab;
              requests :=
                match abortController (page w) with
                | Some c => settleWhere (λ r, bool_decide (controller r = c)) Cancelled (requests w)
                | None => requests w
                end |}
  end.

Fixpoint run (w : World) (evs : list Event) : option World :=
  match evs with
  | [] => Some w
  | ev :: evs' => w' ← step w ev; run w' evs'
  end.

Definition inFlight (w : World) : list Request :=
  filter (λ r, status r = InFlight) (requests w).

(** Every callback in the run comes from the request started last. *)
Fixpoint latestOnly (w : World) (evs : list Event) : Prop :=
  match evs with
  | [] => True
  | ev :: evs' =>
      match ev with
      | Handler t _ => tempId <$> last (requests w) = Some t
      | _ => True
      end
      ∧ match step w ev with
        | Some w' => latestOnly w' evs'
        | None => True
        end
  end.

(** A question as the chat input sends it: the trimmed text of an input
    that [handleSubmit] accepted while neither loading nor disabled,
    non-empty, with no white space at either end. *)
Definition sentByInput (q : jsstring) : Prop :=
  (∃ input, (ChatInput.handleSubmit input false false).2 = Some q ∧ q = trim input)
  ∧ q ≠ []
  ∧ (∀ c, head q = Some c → isWhiteSpace c = false)
  ∧ (∀ c, last q = Some c → isWhiteSpace c = false).

(** No request is in flight, and the page does not show one. *)
Definition idle (w : World) : Prop :=
  Forall (λ r, status r ≠ InFlight) (requests w)
  ∧ isStreaming (page w) = false.

(** The request started last is in flight, alone, and the page shows it:
    [isStreaming] is set and the controller of the request is in the
    state. *)
Definition busy (w : World) : Prop :=
  ∃ rs r, requests w = rs ++ [r]
          ∧ Forall (λ r, status r ≠ InFlight) rs
          ∧ status r = InFlight
          ∧ isStreaming (page w) = true
          ∧ abortController (page w) = Some (controller r).

(** At every moment of every run at most one request is in flight. *)
Definition oneInFlight : Prop :=
  ∀ uuid evs w, run (start uuid) evs = Some w → (length (inFlight w) ≤ 1)%nat.

End App.

(* ================================================================== *)
(** * Streams used in statements *)

(** The handler invocations of a trace. *)
Definition isCall (e : Effect) : bool :=
  match e with ConsoleError => false | _ => true end.

Definition handlerCalls (out : list Effect) : list Effect :=
  filter (λ e, isCall e = true) out.

Definition isTerminal (e : Effect) : bool :=
  match e with OnComplete _ _ | OnError _ => true | _ => false end.

(** After a terminal notification no handler is invoked. *)
Definition terminalIsFinal (out : list Effect) : Prop :=
  ∀ pre e post, out = pre ++ e :: post → isTerminal e = true → handlerCalls post = [].

(** A response that is [ok], with the given body. *)
Definition okResponse (status : N) (texts : list jsstring) (e : StreamEnd)
  : FetchResult :=
  Response true status (Some {| reads := texts; ending := e |}).

(** The handler invocations do not depend on where the reads cut the text
    of the body. *)
Definition splitIndependent (JSON_parse : jsstring → option JSValue) : Prop :=
  ∀ status texts1 texts2 e,
    concat texts1 = concat texts2 →
    handlerCalls (askQuestionStream JSON_parse (okResponse status texts1 e))
    = handlerCalls (askQuestionStream JSON_parse (okResponse status texts2 e)).

(** A read that holds whole lines and begins with an event-type line. *)
Definition aligned (text : jsstring) : Prop :=
  text = [] ∨ (startsWith text (lit "event: ") = true ∧ last text = Some LF).

Definition noLF (s : jsstring) : Prop := LF ∉ s.

(** The body as the reader sees it when the signal is aborted while the
    read after the first [n] is pending: that read rejects with the
    AbortError of the signal, and the reads that would have followed never
    happen. *)
Definition abortedAfter (n : nat) (reason : jsstring) (b : Body) : Body :=
  {| reads := take n (reads b);
     ending := Errored (ErrorObject (lit "AbortError") reason) |}.

(** An event as the server frames it. *)
Record Block := { blockEvent : jsstring; blockData : jsstring }.

(** Modelled from the spec: the server's encoder is not part of the client
    sources.  "each event serializes as a named-event block - event-type
    line, followed by a data line carrying the JSON-encoded payload,
    followed by a blank line terminator". *)
Definition encodeBlock (b : Block) : jsstring :=
  lit "event: " ++ blockEvent b ++ [LF] ++ lit "data: " ++ blockData b ++ [LF; LF].

Definition encodeBlocks (bs : list Block) : jsstring :=
  concat (encodeBlock <$> bs).

Definition wellFramed (b : Block) : Prop :=
  noLF (blockEvent b) ∧ noLF (blockData b).

(** The event type of the block is one of the two terminal ones. *)
Definition terminalBlock (b : Block) : Prop :=
  trim (blockEvent b) = lit "answer_complete" ∨ trim (blockEvent b) = lit "error".

(** The protocol of the server: a terminal event comes last, and a body
    that fails carries none. *)
Definition terminalLast (bs : list Block) (e : StreamEnd) : Prop :=
  match e with
  | Closed => ∃ init fin, bs = init ++ fin ∧ (length fin ≤ 1)%nat ∧ Forall (λ b, ¬ terminalBlock b) init
  | Errored _ => Forall (λ b, ¬ terminalBlock b) bs
  end.

(** The line state a read starts with. *)
Definition start0 : LineState := {| currentEvent := []; currentData := [] |}.

(** The event type in force after the lines of [text]. *)
Definition eventAfter (JSON_parse : jsstring → option JSValue) (text : jsstring) : jsstring :=
  currentEvent (processLines JSON_parse start0 (split text)).1.

(** What the decoder does with a block that reaches it whole. *)
Definition blockEffects (JSON_parse : jsstring → option JSValue) (b : Block) : list Effect :=
  if nonEmpty (trim (blockData b)) && nonEmpty (trim (blockEvent b))
  then dispatch JSON_parse (trim (blockEvent b)) (trim (blockData b))
  else [].

Definition chunksOf (out : list Effect) : list JSValue :=
  omap (λ e, match e with OnChunk c => Some c | _ => None end) out.

(** Notation for inputs: a JSON text written with single quotes, and a
    text given by its lines, each ended by a line feed. *)
Definition json (s : string) : jsstring :=
  (λ c, if c =? 39 then 34 else c) <$> lit s.

Definition wire (lines : list string) : jsstring :=
  concat ((λ l, json l ++ [LF]) <$> lines).

(* ================================================================== *)
(** * Sample streams and runs *)

Module Sample.

Import App.

(** One [answer_chunk] event in one read, and the same bytes cut after the
    event-type line, and cut inside the data line. *)
Definition chunkWhole : list jsstring :=
  [wire ["event: answer_chunk"; "data: {'chunk': 'Hi'}"; ""]].

Definition chunkCutBetweenLines : list jsstring :=
  [wire ["event: answer_chunk"]; wire ["data: {'chunk': 'Hi'}"; ""]].

Definition chunkCutInsideLine : list jsstring :=
  [json "event: answer_chunk" ++ [LF] ++ json "data: {'chu";
   json "nk': 'Hi'}" ++ [LF; LF]].

(** Two events per read boundary kept, against the same text in one read. *)
Definition twoReads : list jsstring :=
  [wire ["event: answer_chunk"; "data: {'chunk': 'Hel'}"; ""];
   wire ["event: answer_chunk"; "data: {'chunk': 'lo'}"; "";
         "event: answer_complete"; "data: {'sources': [], 'session_id': 's1'}"; ""]].

(** A completion followed by a further chunk, on a body whose last read
    fails. *)
Definition networkError : Thrown :=
  ErrorObject (lit "TypeError") (lit "network error").

Definition eventsAfterComplete : FetchResult :=
  okResponse 200 [wire ["event: answer_complete"; "data: {'sources': [], 'session_id': 's1'}"; ""];
         wire ["event: answer_chunk"; "data: {'chunk': 'late'}"; ""]]
        (Errored networkError).

(** A completion on a body whose next read fails. *)
Definition failureAfterComplete : FetchResult :=
  okResponse 200 [wire ["event: answer_complete"; "data: {'sources': [], 'session_id': 's1'}"; ""]]
        (Errored networkError).

(** The blocks of a stream that keeps the protocol. *)
Definition blockHel : Block :=
  {| blockEvent := lit "answer_chunk"; blockData := json "{'chunk': 'Hel'}" |}.
Definition blockLo : Block :=
  {| blockEvent := lit "answer_chunk"; blockData := json "{'chunk': 'lo'}" |}.
Definition blockDone : Block :=
  {| blockEvent := lit "answer_complete";
     blockData := json "{'sources': [], 'session_id': 's1'}" |}.

(** A data line cut short by the server, after its event-type line and
    before a sound data line. *)
Definition beforeCut : jsstring := wire ["event: answer_chunk"].
Definition cutLine : jsstring := json "data: {'chunk': 'Hel".
Definition afterCut : jsstring := wire ["data: {'chunk': 'lo'}"; ""].

(** The page after a first question was asked. *)
Definition asked : ChatPage.State :=
  (ChatPage.handleSendMessage (ChatPage.initial (lit "session")) (lit "first")
     (lit "id-1") (lit "09:00") 1 (lit "id-2") (lit "09:00")
     (ChatPage.initial (lit "session"))).1.

(** A first question answered; a second one asked; then the body of the
    first request fails, and a third question is accepted while the second
    is still streaming. *)
Definition lateFailureRun : list Event :=
  [Submit (lit "first") (lit "id-1") (lit "09:00") 1 (lit "id-2") (lit "09:00");
   Handler (lit "id-2") (OnComplete (JArray []) (JString (lit "s1")));
   Submit (lit "second") (lit "id-3") (lit "09:01") 2 (lit "id-4") (lit "09:01");
   Handler (lit "id-2") (OnError (JString (lit "network error")));
   Submit (lit "third") (lit "id-5") (lit "09:02") 3 (lit "id-6") (lit "09:02")].

(** A question answered in two chunks, a second one stopped by the user. *)
Definition orderlyRun : list Event :=
  [Submit (lit "  first ") (lit "id-1") (lit "09:00") 1 (lit "id-2") (lit "09:00");
   Handler (lit "id-2") (OnChunk (JString (lit "Hel")));
   Submit (lit "too early") (lit "id-7") (lit "09:00") 7 (lit "id-8") (lit "09:00");
   Handler (lit "id-2") (OnChunk (JString (lit "lo")));
   Handler (lit "id-2") (OnComplete (JArray []) (JString (lit "s1")));
   Submit (lit "second") (lit "id-3") (lit "09:01") 2 (lit "id-4") (lit "09:01");
   Stop;
   Handler (lit "id-4") (OnError (JString (lit "Request cancelled")))].

Definition orderlyWorld : World :=
  default (start (lit "session")) (run (start (lit "session")) orderlyRun).

End Sample.

(* ================================================================== *)
(** * More of the client: lines, the submit button, the message view *)

Definition CR : N := 13.

(** The text with a carriage return put before every line feed. *)
Definition toCRLF (text : jsstring) : jsstring :=
  text ≫= (λ c, if decide (c = LF) then [CR; LF] else [c]).

(** The lines of a text ended by CR LF, as [split] leaves them: every line
    but the last keeps its carriage return. *)
Fixpoint crLines (lines : list jsstring) : list jsstring :=
  match lines with
  | [] => []
  | [l] => [l]
  | l :: lines' => (l ++ [CR]) :: crLines lines'
  end.

(** The number of lines of the reads that begin with [data: ]. *)
Definition dataLines (texts : list jsstring) : nat :=
  length (filter (λ l, startsWith l (lit "data: ") = true) (texts ≫= split)).

(** One event-type line followed by several data lines. *)
Definition encodeMulti (ev : jsstring) (ds : list jsstring) : jsstring :=
  lit "event: " ++ ev ++ [LF] ++ concat ((λ d, lit "data: " ++ d ++ [LF]) <$> ds).

(** The [disabled] attribute of the submit button of ChatInput. *)
Definition submitDisabled (message : jsstring) (isLoading disabled : bool) : bool :=
  negb (nonEmpty (trim message)) || isLoading || disabled.

(** The ChatMessage component: what it renders besides the text. *)
Module ChatMessage.

(** [!isUser && isStreaming && !message]: the spinner with
    "Generating answer...". *)
Definition showsSpinner (m : Msg.t) : bool :=
  negb (Msg.isUser m)
  && bool_decide (Msg.isStreaming m = Some true)
  && negb (nonEmpty (Msg.message m)).

End ChatMessage.

(** What no handler of the page changes in a message. *)
Definition skeleton (ms : list Msg.t) : list (jsstring * bool * jsstring) :=
  (λ m, (Msg.id m, Msg.isUser m, Msg.timestamp m)) <$> ms.

(** The identifiers [crypto.randomUUID()] gives in a run are new: the one
    of the assistant message differs from the one of the user message and
    from those of the messages of the page. *)
Fixpoint freshIds (w : App.World) (evs : list App.Event) : Prop :=
  match evs with
  | [] => True
  | ev :: evs' =>
      match ev with
      | App.Submit _ userId _ _ t _ =>
          t ≠ userId ∧ t ∉ Msg.id <$> ChatPage.messages (App.page w)
      | _ => True
      end
      ∧ match App.step w ev with
        | Some w' => freshIds w' evs'
        | None => True
        end
  end.

(** The histories sent by the requests of a world, in the order of the
    requests. *)
Definition histories (w : App.World) : list (list ChatTurn) :=
  (λ r, chat_history (App.ask r)) <$> App.requests w.

(** Histories in which an earlier one is a beginning of every later one. *)
Definition chain (hs : list (list ChatTurn)) : Prop :=
  ∀ i j a b, (i ≤ j)%nat → hs !! i = Some a → hs !! j = Some b → a `prefix_of` b.

(** The shape of the page in a run where callbacks come from the request
    started last and identifiers are new: either nothing was asked yet, or
    the last message is the assistant message of the last request, no
    other message has its identifier, no message before it is streaming,
    it is not streaming itself once the page is not, and every history
    sent so far is a beginning of the history of the messages before it. *)
Definition tidy (w : App.World) : Prop :=
  (App.requests w = [] ∧ ChatPage.messages (App.page w) = []
   ∧ ChatPage.abortController (App.page w) = None)
  ∨ ∃ ms m rs r,
      ChatPage.messages (App.page w) = ms ++ [m]
      ∧ App.requests w = rs ++ [r]
      ∧ Msg.id m = App.tempId r
      ∧ (App.tempId r ∉ Msg.id <$> ms)
      ∧ Forall (λ m, Msg.isStreaming m ≠ Some true) ms
      ∧ (ChatPage.isStreaming (App.page w) = false → Msg.isStreaming m ≠ Some true)
      ∧ Forall (λ h, h `prefix_of` ChatPage.chatHistory ms) (histories w)
      ∧ chain (histories w).

Module More.

Import App.

(** A read with a data line and no event-type line. *)
Definition dataOnly : list jsstring :=
  [wire ["data: {'chunk': 'Hi'}"; ""]].

(** A read with a comment, an [id:] field and an event field without the
    space after the colon. *)
Definition commentLine : jsstring := lit ": keep-alive".

(** A question asked and two chunks received. *)
Definition streamingRun : list Event :=
  [Submit (lit "first") (lit "id-1") (lit "09:00") 1 (lit "id-2") (lit "09:00");
   Handler (lit "id-2") (OnChunk (JString (lit "Hel")));
   Handler (lit "id-2") (OnChunk (JString (lit "lo")))].

Definition streamingWorld : World :=
  default (start (lit "session")) (run (start (lit "session")) streamingRun).

(** An input of white space only. *)
Definition blankInput : jsstring := [32; 9; 10; 160; 32].

(** The user stops the first answer and asks again. *)
Definition laterRun : list Event :=
  [Stop;
   Handler (lit "id-2") (OnError (JString (lit "Request cancelled")));
   Submit (lit "second") (lit "id-3") (lit "09:01") 2 (lit "id-4") (lit "09:01")].

Definition laterWorld : World :=
  default streamingWorld (run streamingWorld laterRun).

(** The messages of [streamingWorld]: the question, and the answer so far. *)
Definition questionMessage : Msg.t :=
  {| Msg.id := lit "id-1"; Msg.message := lit "first"; Msg.isUser := true;
     Msg.timestamp := lit "09:00"; Msg.sources := None; Msg.isStreaming := None |}.

Definition answerSoFar : Msg.t :=
  {| Msg.id := lit "id-2"; Msg.message := lit "Hello"; Msg.isUser := false;
     Msg.timestamp := lit "09:00"; Msg.sources := None;
     Msg.isStreaming := Some true |}.

(** Two payloads after one event-type line. *)
Definition twoPayloads : list jsstring :=
  [json "{'chunk': 'Hel'}"; json "{'chunk': 'lo'}"].

Definition streamingRequest : Request :=
  {| tempId := lit "id-2"; controller := 1;
     ask := {| question := lit "first"; session_id := lit "session";
               chat_history := [] |};
     status := InFlight |}.

End More.

(* ================================================================== *)
(** * Substrings, and the history as the specification reads it *)

(** [p] occurs in [s]. *)
Definition contains (s p : jsstring) : Prop := ∃ a b, s = a ++ p ++ b.

(** Every message of the user is part of the history that is sent. *)
Definition userMessagesKept : Prop :=
  ∀ ms m, m ∈ ms → Msg.isUser m = true →
          ChatPage.toTurn m ∈ ChatPage.chatHistory ms.

Module Quote.

(** A question of the user that quotes the cancellation text of the page. *)
Definition question : Msg.t :=
  {| Msg.id := lit "id-9"; Msg.isUser := true; Msg.timestamp := lit "09:05";
     Msg.message := lit "What does 'Generation cancelled by user.' mean?";
     Msg.sources := None; Msg.isStreaming := None |}.

(** An answer that quotes the beginning of the error text. *)
Definition answer : Msg.t :=
  {| Msg.id := lit "id-10"; Msg.isUser := false; Msg.timestamp := lit "09:05";
     Msg.message := lit "The exchange replied: Sorry, I encountered an error.";
     Msg.sources := Some (JArray []); Msg.isStreaming := Some false |}.

Definition rendered : ChatPage.State :=
  {| ChatPage.messages := [More.questionMessage; question; answer];
     ChatPage.sessionId := lit "session"; ChatPage.isStreaming := false;
     ChatPage.currentStreamingMessage := []; ChatPage.abortController := None |}.

End Quote.

(* ================================================================== *)
(** * A request from the wire to the page *)




(** Nothing happens in the run but callbacks of the request [t] and
    submissions of the form: no click on Stop, no callback of another
    request. *)
Definition undisturbed (t : jsstring) (evs : list App.Event) : Prop :=
  Forall (λ ev, match ev with
                | App.Submit _ _ _ _ _ _ => True
                | App.Handler t' _ => t' = t
                | App.Stop => False
                end) evs.


Module Answer.

Import App.







End Answer.

(* ================================================================== *)
(** * The decoders of the page, turn by turn

    [askQuestionStream] is an async function: it runs until it awaits
    [fetch] or [reader.read()], and goes on when the promise settles.  A
    turn of a decoder is what it does from one settlement to the next
    await.  JavaScript runs the continuation of a settled promise before
    it handles the next event, so when Stop is clicked a decoder that has
    not finished waits on a promise that is still pending; aborting the
    signal that was given to [fetch] rejects that promise with an
    AbortError (Fetch standard). *)

Module Net.

Import ChatPage.

Inductive Phase :=
| Fetching (r : FetchResult)
    (* awaits [fetch], which settles as [r] unless the signal is aborted *)
| Reading (rest : list jsstring) (e : StreamEnd)
    (* in the loop, awaits [reader.read()]; [rest] is still to be read *)
| Finished.
    (* the function has returned *)

(** A call of [askQuestionStream] by the page: the temporary id its
    callbacks close over, the [signal] argument, where it stands, and the
    handler calls and logs it has made. *)
Record Decoder := {
  d_temp : jsstring;
  d_signal : option nat;
  d_phase : Phase;
  d_trace : list Effect
}.

Record World := {
  page : State;
  aborted : gset nat;
  decoders : list Decoder
}.

Inductive Event :=
| Submit (input userId now1 : jsstring) (c : nat) (tempMessageId now2 : jsstring)
    (r : FetchResult)
    (* the form is submitted; [r] is how the network would answer *)
| Advance (i : nat)
    (* the promise the [i]-th decoder awaits settles *)
| Stop.

Definition start (uuid : jsstring) : World :=
  {| page := initial uuid; aborted := ∅; decoders := [] |}.

(** The AbortError of an aborted signal. *)
Definition abortError : Thrown :=
  ErrorObject (lit "AbortError") (lit "signal is aborted without reason").

(** What the [catch] of the decoder does with it. *)
Definition cancelled : list Effect :=
  [OnError (JString (lit "Request cancelled"))].

Definition isAborted (ab : gset nat) (signal : option nat) : bool :=
  match signal with
  | Some c => bool_decide (c ∈ ab)
  | None => false
  end.

Section Turns.

Variable JSON_parse : jsstring → option JSValue.

(** One turn: the new phase, and the effects of the turn. *)
Definition advance (ab : gset nat) (d : Decoder) : Phase * list Effect :=
  match d_phase d with
  | Finished => (Finished, [])
  | Fetching r =>
      if isAborted ab (d_signal d) then (Finished, catchBlock abortError)
      else match r with
           | FetchRejected e => (Finished, catchBlock e)
           | Response false status _ =>
               (Finished,
                catchBlock (ErrorObject (lit "Error")
                              (lit "HTTP error! status: " ++ decimal status)))
           | Response true _ None =>
               (Finished, catchBlock (ErrorObject (lit "Error") (lit "No response body")))
           | Response true _ (Some b) => (Reading (reads b) (ending b), [])
           end
  | Reading rest e =>
      if isAborted ab (d_signal d) then (Finished, catchBlock abortError)
      else match rest with
           | text :: rest' => (Reading rest' e, processChunk JSON_parse text)
           | [] =>
               (Finished,
                match e with Closed => [] | Errored t => catchBlock t end)
           end
  end.

(** The turns of a decoder that is left alone, as many as [fuel] allows. *)
Fixpoint drain (fuel : nat) (ab : gset nat) (d : Decoder) : list Effect :=
  match fuel with
  | O => []
  | S fuel' =>
      let '(ph, out) := advance ab d in
      out ++ drain fuel' ab
               {| d_temp := d_temp d; d_signal := d_signal d; d_phase := ph;
                  d_trace := d_trace d ++ out |}
  end.

(** A step of the page.  [handleStreamingResponse] calls
    [askQuestionStream] with the signal of the controller it has just put
    in the state ([controller.signal], the last argument), and
    [askQuestionStream] gives it to [fetch]: the decoder of a submission
    holds the controller of that submission. *)
Definition step (w : World) (ev : Event) : option World :=
  match ev with
  | Submit input userId now1 c tempMessageId now2 r =>
      let streaming := isStreaming (page w) in
      match (ChatInput.handleSubmit input streaming streaming).2 with
      | None => Some w
      | Some q =>
          let '(st, _) :=
            handleSendMessage (page w) q userId now1 c tempMessageId now2 (page w) in
          Some {| page := st; aborted := aborted w;
                  decoders := decoders w ++
                    [{| d_temp := tempMessageId; d_signal := Some c;
                        d_phase := Fetching r; d_trace := [] |}] |}
      end
  | Advance i =>
      d ← decoders w !! i;
      let '(ph, out) := advance (aborted w) d in
      st ← deliverAll (d_temp d) out (page w);
      Some {| page := st; aborted := aborted w;
              decoders :=
                <[i := {| d_temp := d_temp d; d_signal := d_signal d;
                          d_phase := ph; d_trace := d_trace d ++ out |}]>
                  (decoders w) |}
  | Stop =>
      let '(st, ab) := handleStopGeneration (page w) (page w, aborted w) in
      Some {| page := st; aborted := ab; decoders := decoders w |}
  end.

Fixpoint run (w : World) (evs : list Event) : option World :=
  match evs with
  | [] => Some w
  | ev :: evs' => w' ← step w ev; run w' evs'
  end.

End Turns.

(** The turns a call needs to return when it is left alone. *)
Definition turns (r : FetchResult) : nat :=
  match r with
  | Response true _ (Some b) => 2 + length (reads b)
  | _ => 1
  end.

(** Nothing happens in the run but turns of the [i]-th decoder and
    submissions of the form. *)
Definition undisturbed (i : nat) (evs : list Event) : Prop :=
  Forall (λ ev, match ev with
                | Submit _ _ _ _ _ _ _ => True
                | Advance j => j = i
                | Stop => False
                end) evs.

(** A question was asked, the response has arrived and its first read
    was decoded. *)
Definition streamingRun : list Event :=
  [Submit (lit "first") (lit "id-1") (lit "09:00") 1 (lit "id-2") (lit "09:00")
     (okResponse 200 Sample.twoReads Closed);
   Advance 0; Advance 0].

Definition streamingWorld : World :=
  default (start (lit "session")) (run Json.parse (start (lit "session")) streamingRun).

Definition streamingDecoder : Decoder :=
  {| d_temp := lit "id-2"; d_signal := Some 1%nat;
     d_phase := Reading (drop 1 Sample.twoReads) Closed;
     d_trace := [OnChunk (JString (lit "Hel"))] |}.

(** The user clicks Stop; the decoder has two more turns. *)
Definition afterStop : list Event := [Advance 0; Advance 0].

Definition stoppedWorld : World :=
  default streamingWorld (run Json.parse streamingWorld (Stop :: afterStop)).

(** The same page, had the decoder been called without the signal. *)
Definition unwiredWorld : World :=
  {| page := page streamingWorld; aborted := aborted streamingWorld;
     decoders := [{| d_temp := lit "id-2"; d_signal := None;
                     d_phase := Reading (drop 1 Sample.twoReads) Closed;
                     d_trace := [OnChunk (JString (lit "Hel"))] |}] |}.

End Net.

(* ================================================================== *)
(** * Strings: lines and trimming *)

Lemma split_nonempty s : split s ≠ [].
Proof.
  destruct s as [|c s]; simpl; [done|].
  destruct (decide (c = LF)); [done|].
  by destruct (split s).
Qed.

Lemma split_app_LF a b : split (a ++ LF :: b) = split a ++ split b.
Proof.
  induction a as [|c a IH]; simpl.
  - by destruct (decide (LF = LF)).
  - destruct (decide (c = LF)); [by rewrite IH|].
    rewrite IH. pose proof (split_nonempty a).
    by destruct (split a).
Qed.

Lemma split_noLF s : noLF s → split s = [s].
Proof.
  unfold noLF. induction s as [|c s IH]; simpl; [done|].
  intros H. apply not_elem_of_cons in H as [Hc Hs].
  destruct (decide (c = LF)); [congruence|].
  by rewrite (IH Hs).
Qed.

Lemma startsWith_split s p :
  noLF p → startsWith s p = true →
  ∃ l ls, split s = l :: ls ∧ startsWith l p = true.
Proof.
  unfold noLF. revert s. induction p as [|c p IH]; intros s Hp H.
  - pose proof (split_nonempty s). destruct (split s) as [|l ls]; [done|].
    by exists l, ls.
  - apply not_elem_of_cons in Hp as [Hc Hp].
    destruct s as [|d s]; simpl in H; [done|].
    apply andb_true_iff in H as [Hcd H]. apply N.eqb_eq in Hcd. subst d.
    destruct (IH s Hp H) as (l & ls & Hs & Hl).
    exists (c :: l), ls. simpl.
    destruct (decide (c = LF)); [congruence|].
    rewrite Hs. split; [done|]. simpl. by rewrite N.eqb_refl.
Qed.

Lemma noLF_event : noLF (lit "event: ").
Proof. apply (bool_decide_unpack _). by vm_compute. Qed.

Lemma noLF_data : noLF (lit "data: ").
Proof. apply (bool_decide_unpack _). by vm_compute. Qed.

Lemma startsWith_app p s : startsWith (p ++ s) p = true.
Proof. induction p as [|c p IH]; simpl; [done|]. by rewrite N.eqb_refl. Qed.

Lemma data_not_event line :
  startsWith line (lit "data: ") = true → startsWith line (lit "event: ") = false.
Proof.
  destruct line as [|c line]; [done|].
  change (lit "data: ") with (100 :: lit "ata: ").
  change (lit "event: ") with (101 :: lit "vent: ").
  cbn [startsWith]. intros H. apply andb_true_iff in H as [H _].
  apply N.eqb_eq in H. by subst c.
Qed.

(* ================================================================== *)
(** * The decoder *)

Section DecoderFacts.

Variable JSON_parse : jsstring → option JSValue.

Lemma processLines_app st ls1 ls2 :
  processLines JSON_parse st (ls1 ++ ls2)
  = let '(st1, out1) := processLines JSON_parse st ls1 in
    let '(st2, out2) := processLines JSON_parse st1 ls2 in
    (st2, out1 ++ out2).
Proof.
  revert st. induction ls1 as [|l ls1 IH]; intros st; simpl.
  - by destruct (processLines JSON_parse st ls2).
  - destruct (processLine JSON_parse st l) as [st1 out1]. rewrite IH.
    destruct (processLines JSON_parse st1 ls1) as [st2 out2].
    destruct (processLines JSON_parse st2 ls2) as [st3 out3].
    by rewrite app_assoc.
Qed.

(** [currentData] is written before it is read: what the loop does depends
    on [currentEvent] only. *)
Lemma processLine_event st st' line :
  currentEvent st = currentEvent st' →
  (processLine JSON_parse st line).2 = (processLine JSON_parse st' line).2
  ∧ currentEvent (processLine JSON_parse st line).1
    = currentEvent (processLine JSON_parse st' line).1.
Proof.
  intros H. unfold processLine.
  destruct (startsWith line (lit "event: ")); [done|].
  destruct (startsWith line (lit "data: ")); simpl; by rewrite ?H.
Qed.

Lemma processLines_event st st' ls :
  currentEvent st = currentEvent st' →
  (processLines JSON_parse st ls).2 = (processLines JSON_parse st' ls).2
  ∧ currentEvent (processLines JSON_parse st ls).1
    = currentEvent (processLines JSON_parse st' ls).1.
Proof.
  revert st st'. induction ls as [|l ls IH]; intros st st' H; simpl; [done|].
  destruct (processLine_event st st' l H) as [Ho He].
  destruct (processLine JSON_parse st l) as [st1 o1],
           (processLine JSON_parse st' l) as [st1' o1'].
  simpl in *. destruct (IH st1 st1' He) as [Ho2 He2].
  destruct (processLines JSON_parse st1 ls) as [st2 o2],
           (processLines JSON_parse st1' ls) as [st2' o2'].
  simpl in *. by subst.
Qed.

(** A first line that names the event type makes the rest independent of
    the state the read started in. *)
Lemma processLines_event_first st st' text :
  text = [] ∨ startsWith text (lit "event: ") = true →
  (processLines JSON_parse st (split text)).2
  = (processLines JSON_parse st' (split text)).2.
Proof.
  intros [->|H]; [done|].
  apply startsWith_split in H as (l & ls & -> & Hl); [|apply noLF_event].
  cbn [processLines]. unfold processLine. rewrite Hl.
  destruct (processLines_event
    {| currentEvent := trim (slice 7 l); currentData := currentData st |}
    {| currentEvent := trim (slice 7 l); currentData := currentData st' |}
    ls eq_refl) as [Ho _].
  destruct (processLines JSON_parse _ ls), (processLines JSON_parse _ ls).
  simpl in *. by subst.
Qed.

Lemma processChunk_nil : processChunk JSON_parse [] = [].
Proof. reflexivity. Qed.

Lemma processChunk_app a b :
  a = [] ∨ last a = Some LF →
  b = [] ∨ startsWith b (lit "event: ") = true →
  processChunk JSON_parse (a ++ b)
  = processChunk JSON_parse a ++ processChunk JSON_parse b.
Proof.
  intros [->|Ha] Hb; [done|].
  apply last_Some in Ha as [a' ->].
  rewrite <- app_assoc. simpl. unfold processChunk.
  rewrite !split_app_LF, !processLines_app.
  pose proof (processLines_event_first
    (processLines JSON_parse start0 (split a')).1 start0 b Hb) as Hrest.
  fold start0.
  destruct (processLines JSON_parse start0 (split a')) as [st1 o1].
  simpl in *.
  destruct (processLines JSON_parse st1 (split b)) as [st2 o2].
  destruct (processLines JSON_parse start0 (split b)) as [st2' o2'].
  simpl in *. subst. by rewrite app_nil_r.
Qed.

Lemma startsWith_app_l s r p : startsWith s p = true → startsWith (s ++ r) p = true.
Proof.
  revert s. induction p as [|c p IH]; intros s H; [done|].
  destruct s as [|d s]; [done|]. simpl in *.
  apply andb_true_iff in H as [-> H]. by rewrite IH.
Qed.

Lemma aligned_concat texts :
  Forall aligned texts →
  concat texts = [] ∨ startsWith (concat texts) (lit "event: ") = true.
Proof.
  induction 1 as [|t ts Ht _ IH]; [by left|].
  cbn [concat]. destruct Ht as [->|[Ht _]]; [done|].
  right. by apply startsWith_app_l.
Qed.

Lemma readLoop_cons t ts :
  readLoop JSON_parse (t :: ts)
  = processChunk JSON_parse t ++ readLoop JSON_parse ts.
Proof. reflexivity. Qed.

Lemma readLoop_aligned texts :
  Forall aligned texts →
  readLoop JSON_parse texts = processChunk JSON_parse (concat texts).
Proof.
  induction 1 as [|t ts Ht Hts IH]; [done|].
  rewrite readLoop_cons, IH. cbn [concat].
  symmetry. apply processChunk_app.
  - destruct Ht as [->|[_ Ht]]; [by left|by right].
  - by apply aligned_concat.
Qed.

Lemma readLoop_app texts1 texts2 :
  readLoop JSON_parse (texts1 ++ texts2)
  = readLoop JSON_parse texts1 ++ readLoop JSON_parse texts2.
Proof. unfold readLoop. by rewrite fmap_app, concat_app. Qed.

Lemma askQuestionStream_ok status texts e :
  askQuestionStream JSON_parse (okResponse status texts e)
  = readLoop JSON_parse texts
    ++ match e with Closed => [] | Errored t => catchBlock t end.
Proof. unfold askQuestionStream, okResponse. simpl. by destruct e. Qed.

End DecoderFacts.

(* ================================================================== *)
(** * The dispatch of one event *)

Section DispatchFacts.

Variable JSON_parse : jsstring → option JSValue.

Lemma dispatchParsed_chunk data :
  dispatchParsed (lit "answer_chunk") data
  = c ← getField data K_chunk;
    Some (if toBoolean c then [OnChunk c] else []).
Proof.
  unfold dispatchParsed.
  destruct (decide (lit "answer_chunk" = lit "answer_chunk")); [|done].
  destruct (getField data K_chunk) as [c|]; [|done]. simpl.
  destruct (toBoolean c); [done|].
  destruct (decide (lit "answer_chunk" = lit "answer_complete")) as [E|_];
    [by vm_compute in E|].
  destruct (decide (lit "answer_chunk" = lit "error")) as [E|_];
    [by vm_compute in E|done].
Qed.

Lemma dispatchParsed_complete data :
  dispatchParsed (lit "answer_complete") data
  = s ← getField data K_sources;
    if toBoolean s
    then sid ← getField data K_session_id; Some [OnComplete s sid]
    else Some [].
Proof.
  unfold dispatchParsed.
  destruct (decide (lit "answer_complete" = lit "answer_chunk")) as [E|_];
    [by vm_compute in E|].
  destruct (decide (lit "answer_complete" = lit "answer_complete")); [|done].
  destruct (getField data K_sources) as [s|]; [|done]. simpl.
  destruct (toBoolean s); [done|].
  destruct (decide (lit "answer_complete" = lit "error")) as [E|_];
    [by vm_compute in E|done].
Qed.

Lemma dispatchParsed_error data :
  dispatchParsed (lit "error") data
  = e ← getField data K_error;
    Some [OnError (if toBoolean e then e else JString (lit "Unknown error"))].
Proof.
  unfold dispatchParsed.
  destruct (decide (lit "error" = lit "answer_chunk")) as [E|_];
    [by vm_compute in E|].
  destruct (decide (lit "error" = lit "answer_complete")) as [E|_];
    [by vm_compute in E|].
  by destruct (decide (lit "error" = lit "error")).
Qed.

Lemma dispatchParsed_other ev data :
  ev ≠ lit "answer_chunk" → ev ≠ lit "answer_complete" → ev ≠ lit "error" →
  dispatchParsed ev data = Some [].
Proof.
  intros H1 H2 H3. unfold dispatchParsed.
  destruct (decide (ev = lit "answer_chunk")); [done|].
  destruct (decide (ev = lit "answer_complete")); [done|].
  by destruct (decide (ev = lit "error")).
Qed.

(** Every event type is one of the three the decoder knows, or none. *)
Lemma event_cases (ev : jsstring) :
  ev = lit "answer_chunk" ∨ ev = lit "answer_complete" ∨ ev = lit "error"
  ∨ (ev ≠ lit "answer_chunk" ∧ ev ≠ lit "answer_complete" ∧ ev ≠ lit "error").
Proof.
  destruct (decide (ev = lit "answer_chunk")); [tauto|].
  destruct (decide (ev = lit "answer_complete")); [tauto|].
  destruct (decide (ev = lit "error")); tauto.
Qed.

Ltac dispatch_cases ev :=
  destruct (event_cases ev) as [->|[->|[->|(?&?&?)]]];
  rewrite ?dispatchParsed_chunk, ?dispatchParsed_complete,
    ?dispatchParsed_error, ?dispatchParsed_other by done;
  repeat match goal with
         | |- context [getField ?d ?k] => destruct (getField d k) eqn:?; simpl
         end;
  repeat match goal with
         | |- context [toBoolean ?c] => destruct (toBoolean c) eqn:?; simpl
         end.

Lemma dispatch_length ev d : (length (dispatch JSON_parse ev d) ≤ 1)%nat.
Proof.
  unfold dispatch. destruct (JSON_parse d) as [data|]; [|done].
  dispatch_cases ev; simpl; lia.
Qed.

(** An event that is neither [answer_complete] nor [error] leads to no
    terminal notification. *)
Lemma dispatch_not_terminal ev d :
  ev ≠ lit "answer_complete" → ev ≠ lit "error" →
  Forall (λ e, isTerminal e = false) (dispatch JSON_parse ev d).
Proof.
  intros H2 H3. unfold dispatch.
  destruct (JSON_parse d) as [data|]; [|by repeat constructor].
  dispatch_cases ev; by repeat constructor.
Qed.

Lemma dispatch_OnChunk_inv ev d c :
  OnChunk c ∈ dispatch JSON_parse ev d →
  ev = lit "answer_chunk"
  ∧ ∃ data, JSON_parse d = Some data
            ∧ getField data K_chunk = Some c ∧ toBoolean c = true.
Proof.
  unfold dispatch.
  destruct (JSON_parse d) as [data|]; [|by intros ?%list_elem_of_singleton].
  match goal with |- _ → ?G => set (Concl := G) end.
  dispatch_cases ev; rewrite ?elem_of_cons, ?elem_of_nil; intros;
    intuition; simplify_eq; subst Concl; eauto.
Qed.

Lemma dispatch_OnComplete_inv ev d s sid :
  OnComplete s sid ∈ dispatch JSON_parse ev d →
  ev = lit "answer_complete"
  ∧ ∃ data, JSON_parse d = Some data
            ∧ getField data K_sources = Some s
            ∧ toBoolean s = true ∧ s ≠ JUndefined
            ∧ getField data K_session_id = Some sid.
Proof.
  unfold dispatch.
  destruct (JSON_parse d) as [data|]; [|by intros ?%list_elem_of_singleton].
  match goal with |- _ → ?G => set (Concl := G) end.
  dispatch_cases ev; rewrite ?elem_of_cons, ?elem_of_nil; intros;
    intuition; simplify_eq; subst Concl.
  split; [done|]. eexists. repeat split; eauto. by intros ->.
Qed.

(** C10.  The decoder dispatches on truthy payload fields only.  [onChunk]
    is invoked only for an [answer_chunk] event whose parsed payload has a
    truthy [chunk], which is then the argument; an [answer_chunk] event
    whose [chunk] is the empty string has no effect at all.  [onComplete]
    is invoked only for an [answer_complete] event whose payload has a
    truthy, hence present, [sources]; an empty [sources] array is truthy
    and is delivered. *)
Theorem dispatch_on_truthy_fields (ev d : jsstring) :
  (∀ c, OnChunk c ∈ dispatch JSON_parse ev d →
        ev = lit "answer_chunk"
        ∧ ∃ data, JSON_parse d = Some data
                  ∧ getField data K_chunk = Some c ∧ toBoolean c = true)
  ∧ (∀ data, JSON_parse d = Some data →
             getField data K_chunk = Some (JString []) →
             dispatch JSON_parse (lit "answer_chunk") d = [])
  ∧ (∀ s sid, OnComplete s sid ∈ dispatch JSON_parse ev d →
        ev = lit "answer_complete"
        ∧ ∃ data, JSON_parse d = Some data
                  ∧ getField data K_sources = Some s
                  ∧ toBoolean s = true ∧ s ≠ JUndefined
                  ∧ getField data K_session_id = Some sid)
  ∧ (∀ data, JSON_parse d = Some data →
             getField data K_sources = Some (JArray []) →
             ∃ sid, getField data K_session_id = Some sid
                    ∧ dispatch JSON_parse (lit "answer_complete") d
                      = [OnComplete (JArray []) sid]).
Proof.
  split; [apply dispatch_OnChunk_inv|].
  split; [|split; [apply dispatch_OnComplete_inv|]]; unfold dispatch.
  - intros data -> Hc. by rewrite dispatchParsed_chunk, Hc.
  - intros data -> Hs.
    assert (∃ sid, getField data K_session_id = Some sid) as [sid Hsid]
      by (destruct data; try done; by eexists).
    exists sid. split; [done|].
    by rewrite dispatchParsed_complete, Hs; simpl; rewrite Hsid.
Qed.

End DispatchFacts.

(* ================================================================== *)
(** * Reads and event blocks *)

Section StreamFacts.

Variable JSON_parse : jsstring → option JSValue.

(** What one line adds to the trace: nothing, unless it is a data line met
    while an event type is in force. *)
Lemma processLine_out_cases st l :
  (processLine JSON_parse st l).2 = []
  ∨ (startsWith l (lit "data: ") = true
     ∧ currentEvent st ≠ []
     ∧ (processLine JSON_parse st l).2
       = dispatch JSON_parse (currentEvent st) (trim (slice 6 l))).
Proof.
  unfold processLine.
  destruct (startsWith l (lit "event: ")); [by left|].
  destruct (startsWith l (lit "data: ")); [|by left].
  cbn [snd]. destruct (nonEmpty (trim (slice 6 l))); [|by left].
  destruct (currentEvent st) as [|c ev]; [by left|by right].
Qed.

(** Where an effect of the line loop comes from: a data line, dispatched
    with the event type then in force, which is not empty. *)
Lemma processLines_effect_origin st ls e :
  e ∈ (processLines JSON_parse st ls).2 →
  ∃ ls1 ld ls3,
    ls = ls1 ++ ld :: ls3
    ∧ startsWith ld (lit "data: ") = true
    ∧ currentEvent (processLines JSON_parse st ls1).1 ≠ []
    ∧ e ∈ dispatch JSON_parse (currentEvent (processLines JSON_parse st ls1).1)
            (trim (slice 6 ld)).
Proof.
  revert st. induction ls as [|l ls IH]; intros st; cbn [processLines].
  - cbn. by intros ?%elem_of_nil.
  - pose proof (processLine_out_cases st l) as Hl.
    destruct (processLine JSON_parse st l) as [st1 o1] eqn:E1.
    destruct (processLines JSON_parse st1 ls) as [st2 o2] eqn:E2.
    cbn [snd] in *. intros [H|H]%elem_of_app.
    + destruct Hl as [->|(Hd & Hev & ->)]; [by apply elem_of_nil in H|].
      by exists [], l, ls.
    + specialize (IH st1). rewrite E2 in IH.
      destruct (IH H) as (ls1 & ld & ls3 & -> & Hd & Hev & He).
      exists (l :: ls1), ld, ls3. cbn [app processLines]. rewrite E1.
      destruct (processLines JSON_parse st1 ls1) as [st3 o3]. by cbn in *.
Qed.

(** The event type in force after some lines is the one the line loop
    started with, when none of them names an event type, and otherwise the
    one of the last event-type line among them. *)
Lemma currentEvent_origin st ls :
  (Forall (λ l, startsWith l (lit "event: ") = false) ls
   ∧ currentEvent (processLines JSON_parse st ls).1 = currentEvent st)
  ∨ ∃ la le lb,
      ls = la ++ le :: lb
      ∧ startsWith le (lit "event: ") = true
      ∧ Forall (λ l, startsWith l (lit "event: ") = false) lb
      ∧ currentEvent (processLines JSON_parse st ls).1 = trim (slice 7 le).
Proof.
  revert st. induction ls as [|l ls IH]; intros st; cbn [processLines]; [by left|].
  destruct (processLine JSON_parse st l) as [st1 o1] eqn:E1.
  specialize (IH st1).
  destruct (processLines JSON_parse st1 ls) as [st2 o2] eqn:E2. cbn [fst] in *.
  destruct IH as [[Hall IH]|(la & le & lb & -> & Hle & Hlb & Hev)].
  - unfold processLine in E1.
    destruct (startsWith l (lit "event: ")) eqn:El.
    + injection E1 as <- <-. right. by exists [], l, ls.
    + left. split; [by constructor|]. rewrite IH.
      destruct (startsWith l (lit "data: ")); by injection E1 as <- <-.
  - right. by exists (l :: la), le, lb.
Qed.

(** C1, as the code has it.  The decoder keeps no buffer between reads: the
    text of every read is split into lines on its own and the event type
    starts empty in every read.  An event is dispatched only when a data
    line is met after an event-type line of the same read: every effect of
    the read loop is the dispatch of a data line of some read with the type
    named by the last event-type line before it in that read.  Two ways of
    cutting the same text into reads give the same handler invocations
    (and the same trace) when every read holds whole lines and begins with
    an event-type line. *)
Theorem aligned_reads_same_trace :
  (∀ (status : N) (texts : list jsstring) (e : StreamEnd) (eff : Effect),
     eff ∈ askQuestionStream JSON_parse (okResponse status texts e) →
     eff ∈ match e with Closed => [] | Errored t => catchBlock t end
     ∨ ∃ text la le lb ld lc,
         text ∈ texts
         ∧ split text = la ++ le :: lb ++ ld :: lc
         ∧ startsWith le (lit "event: ") = true
         ∧ Forall (λ l, startsWith l (lit "event: ") = false) lb
         ∧ startsWith ld (lit "data: ") = true
         ∧ eff ∈ dispatch JSON_parse (trim (slice 7 le)) (trim (slice 6 ld)))
  ∧ (∀ (status : N) (texts1 texts2 : list jsstring) (e : StreamEnd),
       Forall aligned texts1 → Forall aligned texts2 →
       concat texts1 = concat texts2 →
       askQuestionStream JSON_parse (okResponse status texts1 e)
       = askQuestionStream JSON_parse (okResponse status texts2 e)
       ∧ handlerCalls (askQuestionStream JSON_parse (okResponse status texts1 e))
         = handlerCalls (askQuestionStream JSON_parse (okResponse status texts2 e))).
Proof.
  split.
  - intros status texts e eff. rewrite askQuestionStream_ok.
    intros [H|H]%elem_of_app; [right|by left].
    unfold readLoop in H.
    apply list_elem_of_In, in_concat in H as (out & Hout & Heff).
    apply list_elem_of_In, list_elem_of_fmap in Hout as (text & -> & Htext).
    apply list_elem_of_In in Heff.
    unfold processChunk in Heff.
    apply processLines_effect_origin in Heff
      as (ls1 & ld & ls3 & Hsplit & Hd & Hev & Heff).
    destruct (currentEvent_origin start0 ls1)
      as [[_ E]|(la & le & lb & -> & Hle & Hlb & E)].
    { fold start0 in Hev. by rewrite E in Hev. }
    fold start0 in Heff. rewrite E in Heff.
    exists text, la, le, lb, ld, ls3.
    by rewrite Hsplit, <- app_assoc.
  - intros status texts1 texts2 e H1 H2 Heq.
    assert (askQuestionStream JSON_parse (okResponse status texts1 e)
            = askQuestionStream JSON_parse (okResponse status texts2 e)) as ->; [|done].
    rewrite !askQuestionStream_ok, !readLoop_aligned by done.
    by rewrite Heq.
Qed.

(** The state of the line loop after a data line. *)
Lemma processLine_data st line :
  startsWith line (lit "data: ") = true →
  processLine JSON_parse st line
  = ({| currentEvent := currentEvent st; currentData := trim (slice 6 line) |},
     if nonEmpty (trim (slice 6 line)) && nonEmpty (currentEvent st)
     then dispatch JSON_parse (currentEvent st) (trim (slice 6 line)) else []).
Proof.
  intros H. unfold processLine. by rewrite (data_not_event _ H), H.
Qed.

Lemma nonEmpty_true s : s ≠ [] → nonEmpty s = true.
Proof. by destruct s. Qed.

(** One read with a data line that does not parse, and the same read
    without that line. *)
Lemma processChunk_unparseable a line b :
  last a = Some LF → noLF line →
  startsWith line (lit "data: ") = true →
  trim (slice 6 line) ≠ [] →
  JSON_parse (trim (slice 6 line)) = None →
  eventAfter JSON_parse a ≠ [] →
  ∃ out1 out2,
    processChunk JSON_parse (a ++ line ++ LF :: b) = out1 ++ ConsoleError :: out2
    ∧ processChunk JSON_parse (a ++ b) = out1 ++ out2.
Proof.
  intros Ha Hline Hdata Hd Hparse Hev.
  apply last_Some in Ha as [a' ->].
  unfold eventAfter in Hev. unfold processChunk.
  rewrite <- !app_assoc. cbn [app].
  rewrite !split_app_LF in *. rewrite (split_noLF line Hline).
  rewrite !processLines_app in *. fold start0.
  destruct (processLines JSON_parse start0 (split a')) as [st1 o1].
  change (processLines JSON_parse st1 (split [])) with (st1, @nil Effect) in Hev.
  cbn [fst] in Hev. cbn [app processLines].
  rewrite (processLine_data st1 line Hdata).
  rewrite (nonEmpty_true _ Hd), (nonEmpty_true _ Hev). cbn [andb].
  unfold dispatch at 1. rewrite Hparse.
  destruct (processLines_event JSON_parse
    {| currentEvent := currentEvent st1; currentData := trim (slice 6 line) |}
    st1 (split b) eq_refl) as [Ho _].
  destruct (processLines JSON_parse _ (split b)) as [st2 o2].
  destruct (processLines JSON_parse st1 (split b)) as [st2' o2'].
  cbn in *. subst. by exists o1, o2'.
Qed.

(** C4.  A data line whose text is not parseable JSON, met while an event
    type is in force, is dropped on its own: the failure is logged, no
    handler is invoked for it, and everything before and after it in the
    stream is dispatched exactly as if the line had not been there. *)
Theorem unparseable_data_is_dropped (status : N)
    (texts1 texts2 : list jsstring) (a line b : jsstring) (e : StreamEnd) :
  last a = Some LF → noLF line →
  startsWith line (lit "data: ") = true →
  trim (slice 6 line) ≠ [] →
  JSON_parse (trim (slice 6 line)) = None →
  eventAfter JSON_parse a ≠ [] →
  ∃ out1 out2,
    askQuestionStream JSON_parse
      (okResponse status (texts1 ++ (a ++ line ++ LF :: b) :: texts2) e)
    = out1 ++ ConsoleError :: out2
    ∧ askQuestionStream JSON_parse (okResponse status (texts1 ++ (a ++ b) :: texts2) e)
      = out1 ++ out2.
Proof.
  intros Ha Hline Hdata Hd Hparse Hev.
  destruct (processChunk_unparseable a line b Ha Hline Hdata Hd Hparse Hev)
    as (o1 & o2 & E1 & E2).
  rewrite !askQuestionStream_ok, !readLoop_app, !readLoop_cons, E1, E2.
  exists (readLoop JSON_parse texts1 ++ o1),
    (o2 ++ readLoop JSON_parse texts2
        ++ match e with Closed => [] | Errored t => catchBlock t end).
  by rewrite <- !app_assoc.
Qed.

End StreamFacts.

Section BlockFacts.

Variable JSON_parse : jsstring → option JSValue.

Lemma noLF_app s1 s2 : noLF s1 → noLF s2 → noLF (s1 ++ s2).
Proof. unfold noLF. rewrite elem_of_app. tauto. Qed.

Lemma encodeBlock_split b rest :
  wellFramed b →
  split (encodeBlock b ++ rest)
  = (lit "event: " ++ blockEvent b) :: (lit "data: " ++ blockData b)
      :: [] :: split rest.
Proof.
  intros [Hev Hd]. unfold encodeBlock.
  replace ((lit "event: " ++ blockEvent b ++ [LF] ++ lit "data: "
            ++ blockData b ++ [LF; LF]) ++ rest)
    with ((lit "event: " ++ blockEvent b)
            ++ LF :: (lit "data: " ++ blockData b) ++ LF :: [] ++ LF :: rest)
    by (by rewrite <- !app_assoc).
  rewrite !split_app_LF.
  rewrite !split_noLF by (by apply noLF_app; [apply noLF_event || apply noLF_data|]).
  done.
Qed.

Lemma processLines_block st b rest :
  wellFramed b →
  processLines JSON_parse st (split (encodeBlock b ++ rest))
  = let '(st', out) :=
      processLines JSON_parse
        {| currentEvent := trim (blockEvent b); currentData := trim (blockData b) |}
        (split rest) in
    (st', blockEffects JSON_parse b ++ out).
Proof.
  intros Hb. rewrite (encodeBlock_split b rest Hb). cbn [processLines].
  unfold processLine at 1. rewrite startsWith_app.
  rewrite processLine_data by apply startsWith_app.
  change (processLine JSON_parse ?s []) with (s, @nil Effect).
  change (slice 7 (lit "event: " ++ blockEvent b)) with (blockEvent b).
  change (slice 6 (lit "data: " ++ blockData b)) with (blockData b).
  cbn [currentEvent]. unfold blockEffects.
  by destruct (processLines JSON_parse _ (split rest)).
Qed.

Lemma processLines_blocks st bs :
  Forall wellFramed bs →
  (processLines JSON_parse st (split (encodeBlocks bs))).2
  = concat (blockEffects JSON_parse <$> bs).
Proof.
  intros H. revert st. induction H as [|b bs Hb _ IH]; intros st; [done|].
  change (encodeBlocks (b :: bs)) with (encodeBlock b ++ encodeBlocks bs).
  rewrite (processLines_block st b _ Hb).
  specialize (IH {| currentEvent := trim (blockEvent b);
                    currentData := trim (blockData b) |}).
  destruct (processLines JSON_parse _ (split (encodeBlocks bs))).
  cbn in *. by subst.
Qed.

(** Reads made of whole blocks: every block is dispatched on its own. *)
Lemma readLoop_blocks (bss : list (list Block)) :
  Forall (Forall wellFramed) bss →
  readLoop JSON_parse (encodeBlocks <$> bss)
  = concat (blockEffects JSON_parse <$> concat bss).
Proof.
  induction 1 as [|bs bss Hbs _ IH]; [done|].
  cbn [fmap list_fmap]. rewrite readLoop_cons. fold (fmap encodeBlocks bss).
  rewrite IH. cbn [concat]. rewrite fmap_app, concat_app.
  f_equal. by apply processLines_blocks.
Qed.

Lemma blockEffects_length b : (length (blockEffects JSON_parse b) ≤ 1)%nat.
Proof.
  unfold blockEffects. destruct (_ && _); [apply dispatch_length|simpl; lia].
Qed.

Lemma blockEffects_not_terminal b :
  ¬ terminalBlock b → Forall (λ e, isTerminal e = false) (blockEffects JSON_parse b).
Proof.
  unfold terminalBlock, blockEffects. intros H.
  destruct (_ && _); [|constructor].
  apply dispatch_not_terminal; tauto.
Qed.

Lemma blocksEffects_not_terminal bs :
  Forall (λ b, ¬ terminalBlock b) bs →
  Forall (λ e, isTerminal e = false) (concat (blockEffects JSON_parse <$> bs)).
Proof.
  induction 1 as [|b bs Hb _ IH]; [constructor|].
  cbn. apply Forall_app. split; [by apply blockEffects_not_terminal|done].
Qed.

Lemma terminalIsFinal_intro (xs ys : list Effect) :
  Forall (λ e, isTerminal e = false) xs → (length ys ≤ 1)%nat →
  terminalIsFinal (xs ++ ys).
Proof.
  intros Hxs Hys pre e post Heq He.
  assert (e ∉ xs) as Hnot.
  { intros Hin. rewrite Forall_forall in Hxs. specialize (Hxs e Hin). congruence. }
  apply app_eq_inv in Heq as [(k & -> & Hk)|(k & -> & ->)].
  - destruct k as [|e' k]; simplify_eq/=.
    + destruct post; [done|simpl in Hys; lia].
    + exfalso. apply Hnot. rewrite elem_of_app, elem_of_cons. tauto.
  - rewrite length_app in Hys. simpl in Hys.
    destruct post; [done|simpl in Hys; lia].
Qed.

Lemma catchBlock_length t : length (catchBlock t) = 1%nat.
Proof. destruct t as [name message|]; [|done]. simpl. by case_decide. Qed.

(** C2, as the code has it.  The decoder does not stop at a terminal event:
    it relays every event of the body.  When the stream keeps the protocol
    of the server (event blocks that reach the decoder whole, a terminal
    event only as the last event of a body that closes, and none in a body
    whose read fails), the decoder delivers at most one terminal
    notification and invokes no handler after it. *)
Theorem protocol_stream_one_terminal
    (status : N) (bss : list (list Block)) (e : StreamEnd) :
  Forall (Forall wellFramed) bss →
  terminalLast (concat bss) e →
  terminalIsFinal (askQuestionStream JSON_parse (okResponse status (encodeBlocks <$> bss) e)).
Proof.
  intros Hwf Hlast.
  rewrite askQuestionStream_ok, readLoop_blocks by done.
  destruct e as [|t]; simpl in Hlast.
  - destruct Hlast as (init & fin & -> & Hfin & Hinit).
    rewrite app_nil_r, fmap_app, concat_app.
    apply terminalIsFinal_intro; [by apply blocksEffects_not_terminal|].
    destruct fin as [|b [|? ?]]; simpl in *; [lia| |lia].
    rewrite app_nil_r. apply blockEffects_length.
  - apply terminalIsFinal_intro; [by apply blocksEffects_not_terminal|].
    by rewrite catchBlock_length.
Qed.

End BlockFacts.

(* ================================================================== *)
(** * ChatPage: the streamed message *)

Section PageFacts.

Import ChatPage.

Lemma mapTemp_fresh tempMessageId f (ms : list Msg.t) :
  tempMessageId ∉ Msg.id <$> ms → mapTemp tempMessageId f ms = ms.
Proof.
  unfold mapTemp. induction ms as [|m ms IH]; [done|].
  rewrite fmap_cons, not_elem_of_cons. intros [Hm Hms].
  rewrite fmap_cons, (IH Hms). by destruct (decide (Msg.id m = tempMessageId)).
Qed.

Lemma mapTemp_last tempMessageId f (ms : list Msg.t) m :
  tempMessageId ∉ Msg.id <$> ms → Msg.id m = tempMessageId →
  mapTemp tempMessageId f (ms ++ [m]) = ms ++ [f m].
Proof.
  intros Hms Hm. pose proof (mapTemp_fresh tempMessageId f ms Hms) as E.
  unfold mapTemp in *. rewrite fmap_app, E. simpl.
  by destruct (decide (Msg.id m = tempMessageId)).
Qed.

Lemma find_last tempMessageId (ms : list Msg.t) m :
  tempMessageId ∉ Msg.id <$> ms → Msg.id m = tempMessageId →
  find tempMessageId (ms ++ [m]) = Some m.
Proof.
  unfold find. induction ms as [|m' ms IH]; intros Hms Hm; simpl.
  - by destruct (decide (Msg.id m = tempMessageId)).
  - rewrite fmap_cons, not_elem_of_cons in Hms. destruct Hms as [Hm' Hms].
    destruct (decide (Msg.id m' = tempMessageId)); [done|].
    specialize (IH Hms Hm).
    by destruct (list_find _ (ms ++ [m])) as [[i x]|].
Qed.

(** [onChunk] appends the chunk to the text of the message of the request. *)
Lemma onChunk_last tempMessageId c st ms m :
  messages st = ms ++ [m] →
  tempMessageId ∉ Msg.id <$> ms → Msg.id m = tempMessageId →
  messages (onChunk tempMessageId c st)
  = ms ++ [Msg.setMessage (Msg.message m ++ c) m]
  ∧ isStreaming (onChunk tempMessageId c st) = isStreaming st
  ∧ abortController (onChunk tempMessageId c st) = abortController st.
Proof.
  intros Hst Hms Hm. unfold onChunk, setMessages, setCurrentStreamingMessage.
  cbn [messages isStreaming abortController]. rewrite Hst.
  rewrite (mapTemp_last _ _ _ _ Hms Hm). unfold grown.
  rewrite (find_last _ _ _ Hms Hm).
  repeat split. do 2 f_equal.
  destruct (Msg.message m ++ c) eqn:E; [|done].
  by apply app_eq_nil in E as [_ ->].
Qed.

Lemma deliverAll_logs tempMessageId out st :
  handlerCalls out = [] → deliverAll tempMessageId out st = Some st.
Proof.
  induction out as [|e out IH]; [done|].
  unfold handlerCalls. rewrite filter_cons.
  destruct e; simpl; done.
Qed.

Lemma deliverAll_chunks tempMessageId out cs srcs sid st ms m :
  messages st = ms ++ [m] →
  tempMessageId ∉ Msg.id <$> ms → Msg.id m = tempMessageId →
  handlerCalls out = (OnChunk ∘ JString <$> cs) ++ [OnComplete srcs sid] →
  ∃ st', deliverAll tempMessageId out st = Some st'
         ∧ messages st'
           = ms ++ [Msg.setIsStreaming false (Msg.setSources srcs
                      (Msg.setMessage (Msg.message m ++ concat cs) m))]
         ∧ isStreaming st' = false.
Proof.
  intros Hst Hms Hm. revert st m cs Hst Hm.
  induction out as [|e out IH]; intros st m cs Hst Hm Hout.
  - by destruct cs.
  - unfold handlerCalls in Hout. rewrite filter_cons in Hout.
    destruct e as [v|s' sid'|v|]; simpl in Hout.
    + destruct cs as [|c cs]; simplify_eq/=.
      destruct (onChunk_last (Msg.id m) c st ms m Hst Hms eq_refl) as (Hmsgs & _ & _).
      destruct (IH (onChunk (Msg.id m) c st) _ cs Hmsgs eq_refl H0)
        as (st' & Hrun & Hres & Hstr).
      exists st'. repeat split; [done| |done].
      rewrite Hres. cbn. by rewrite <- app_assoc.
    + destruct cs as [|c cs]; simplify_eq/=.
      rewrite deliverAll_logs by done.
      eexists. split; [done|]. cbn. rewrite Hst.
      rewrite (mapTemp_last _ _ _ _ Hms eq_refl). by rewrite app_nil_r.
    + destruct cs as [|c cs]; simplify_eq/=.
    + by apply IH.
Qed.

(** The update of [handleStopGeneration] on a message leaves a message it
    has updated alone. *)
Lemma stop_message_idem (ms : list Msg.t) :
  let f := λ msg : Msg.t,
    if bool_decide (Msg.isStreaming msg = Some true)
    then Msg.setIsStreaming false
           (Msg.setMessage (Msg.message msg ++ [LF; LF] ++ cancelledText) msg)
    else msg in
  f <$> (f <$> ms) = f <$> ms.
Proof.
  intros f. rewrite <- list_fmap_compose. apply list_fmap_ext.
  intros i m _. unfold f, compose.
  destruct (bool_decide (Msg.isStreaming m = Some true)) eqn:E; [done|].
  by rewrite E.
Qed.

(** C6.  Stopping is idempotent.  With no controller in the state the
    handler was rendered with, [handleStopGeneration] changes nothing; a
    second call changes nothing either, whether it is made by the same
    handler or by the handler of the page rendered after the first call.
    The handler has no failing path. *)
Theorem stop_is_idempotent (render : State) (w : State * gset nat) :
  (abortController render = None → handleStopGeneration render w = w)
  ∧ handleStopGeneration render (handleStopGeneration render w)
    = handleStopGeneration render w
  ∧ (let w1 := handleStopGeneration w.1 w in
     handleStopGeneration w1.1 w1 = w1).
Proof.
  unfold handleStopGeneration. repeat split.
  - by intros ->.
  - destruct (abortController render) as [c|]; [|done].
    cbn. f_equal; [|by rewrite (assoc_L (∪)), union_idemp_L].
    unfold setMessages, finish. cbn. f_equal. apply stop_message_idem.
  - destruct (abortController w.1) as [c|] eqn:E; cbn; [done|by rewrite E].
Qed.

End PageFacts.

(* ================================================================== *)
(** * ChatPage: the history sent with a request *)

Section HistoryFacts.

Import ChatPage.

Lemma includes_unfold s p :
  includes s p
  = startsWith s p || match s with [] => false | _ :: s' => includes s' p end.
Proof. by destruct s. Qed.

Lemma includes_app_r a s p : includes s p = true → includes (a ++ s) p = true.
Proof.
  intros H. induction a as [|c a IH]; [done|].
  cbn [app]. rewrite includes_unfold, IH. apply orb_true_r.
Qed.

(** The placeholders the page writes are excluded by the filter. *)
Lemma placeholders_are_errors (m : Msg.t) :
  Msg.message m = cancelledText ∨ Msg.message m = sorryText
  ∨ (∃ partial, Msg.message m = partial ++ [LF; LF] ++ cancelledText) →
  isError m = true.
Proof.
  unfold isError. intros [->|[->|[partial ->]]]; [done..|].
  apply orb_true_iff. right. by apply includes_app_r.
Qed.

Lemma startsWith_prefix s p : startsWith s p = true ↔ ∃ b, s = p ++ b.
Proof.
  split.
  - revert s. induction p as [|c p IH]; intros s H; [by exists s|].
    destruct s as [|d s]; [done|]. cbn in H.
    apply andb_true_iff in H as [->%N.eqb_eq H].
    destruct (IH s H) as [b ->]. by exists b.
  - intros [b ->]. apply startsWith_app.
Qed.

(** [includes] decides the occurrence of a substring. *)
Lemma includes_contains s p : includes s p = true ↔ contains s p.
Proof.
  unfold contains. split.
  - induction s as [|c s IH]; rewrite includes_unfold;
      intros [H|H]%orb_true_iff; try done.
    + apply startsWith_prefix in H as [b ->]. by exists [], b.
    + apply startsWith_prefix in H as [b ->]. by exists [], b.
    + destruct (IH H) as (a & b & ->). by exists (c :: a), b.
  - intros (a & b & ->). apply includes_app_r.
    rewrite includes_unfold, startsWith_app. done.
Qed.

Lemma isError_contains (m : Msg.t) :
  isError m = true
  ↔ contains (Msg.message m) (lit "Sorry, I encountered an error")
    ∨ contains (Msg.message m) (lit "Generation cancelled by user").
Proof.
  unfold isError. by rewrite orb_true_iff, !includes_contains.
Qed.

(** C8, as the code has it.  The history sent with a request keeps the
    order of the conversation: it is an order-preserving subsequence of
    the messages the page was rendered with.  A message is left out
    exactly when its text contains "Sorry, I encountered an error" or
    "Generation cancelled by user" somewhere: the placeholders of the page
    are left out, and so is every other message with one of the phrases
    in it.  Every message with neither phrase gives one turn, with role
    "user" exactly for the user's messages and "assistant" for the others,
    and with the text and the timestamp of the message. *)
Theorem chat_history_keeps_order
    (render st : State) (q tempMessageId now : jsstring) (controller : nat) :
  chat_history (handleStreamingResponse render q controller tempMessageId now st).2
    `sublist_of` (toTurn <$> messages render)
  ∧ chat_history (handleStreamingResponse render q controller tempMessageId now st).2
    = toTurn <$> filter (λ m, isError m = false) (messages render)
  ∧ (∀ m, isError m = true
          ↔ contains (Msg.message m) (lit "Sorry, I encountered an error")
            ∨ contains (Msg.message m) (lit "Generation cancelled by user"))
  ∧ (∀ turn,
       turn ∈ chat_history
                (handleStreamingResponse render q controller tempMessageId now st).2
       ↔ ∃ m, m ∈ messages render ∧ turn = toTurn m
              ∧ ¬ contains (Msg.message m) (lit "Sorry, I encountered an error")
              ∧ ¬ contains (Msg.message m) (lit "Generation cancelled by user"))
  ∧ ((∀ m, m ∈ messages render →
           ¬ contains (Msg.message m) (lit "Sorry, I encountered an error")
           ∧ ¬ contains (Msg.message m) (lit "Generation cancelled by user")) →
     chat_history (handleStreamingResponse render q controller tempMessageId now st).2
     = toTurn <$> messages render)
  ∧ (∀ m, role (toTurn m) = (if Msg.isUser m then user else assistant)
          ∧ (role (toTurn m) = user ↔ Msg.isUser m = true)
          ∧ content (toTurn m) = Msg.message m
          ∧ turnTimestamp (toTurn m) = Msg.timestamp m)
  ∧ (∀ m, m ∈ messages render →
          (Msg.message m = cancelledText ∨ Msg.message m = sorryText
           ∨ ∃ partial, Msg.message m = partial ++ [LF; LF] ++ cancelledText) →
          m ∉ filter (λ m, isError m = false) (messages render)).
Proof.
  cbn [handleStreamingResponse snd chat_history]. unfold chatHistory.
  split; [apply fmap_sublist, sublist_filter|].
  split; [done|].
  split; [apply isError_contains|].
  split.
  { intros turn. rewrite list_elem_of_fmap. split.
    - intros (m & -> & [Herr Hm]%list_elem_of_filter).
      exists m. split; [done|]. split; [done|].
      apply not_true_iff_false in Herr. rewrite isError_contains in Herr.
      tauto.
    - intros (m & Hm & -> & H1 & H2). exists m. split; [done|].
      apply list_elem_of_filter. split; [|done].
      apply not_true_iff_false. rewrite isError_contains. tauto. }
  split.
  { intros Hall. f_equal. induction (messages render) as [|m ms IH]; [done|].
    rewrite filter_cons_True.
    - f_equal. apply IH. intros m' Hm'. apply Hall. by right.
    - apply not_true_iff_false. rewrite isError_contains.
      destruct (Hall m) as [H1 H2]; [by left|tauto]. }
  split.
  { intros m. unfold toTurn. cbn. by destruct (Msg.isUser m). }
  intros m Hm Hplace [Herr _]%list_elem_of_filter.
  by rewrite (placeholders_are_errors m Hplace) in Herr.
Qed.

End HistoryFacts.

(* ================================================================== *)
(** * ChatInput: what is sent *)

Lemma trimStart_head s c : head (trimStart s) = Some c → isWhiteSpace c = false.
Proof.
  induction s as [|d s IH]; [done|]. cbn [trimStart].
  destruct (isWhiteSpace d) eqn:E; [done|]. cbn. by intros [= <-].
Qed.

Lemma trimStart_suffix s : ∃ p, s = p ++ trimStart s.
Proof.
  induction s as [|d s [p IH]]; [by exists []|]. cbn [trimStart].
  destruct (isWhiteSpace d); [|by exists []].
  exists (d :: p). cbn [app]. by f_equal.
Qed.

Lemma trim_last s c : last (trim s) = Some c → isWhiteSpace c = false.
Proof.
  unfold trim, trimEnd. rewrite last_reverse. apply trimStart_head.
Qed.

Lemma trim_head s c : head (trim s) = Some c → isWhiteSpace c = false.
Proof.
  unfold trim, trimEnd. rewrite head_reverse. intros H.
  destruct (trimStart_suffix (reverse (trimStart s))) as [p Hp].
  assert (last (reverse (trimStart s)) = Some c) as Hl.
  { rewrite Hp, last_app. by rewrite H. }
  rewrite last_reverse in Hl. by apply trimStart_head in Hl.
Qed.

Lemma handleSubmit_sends message isLoading disabled q :
  (ChatInput.handleSubmit message isLoading disabled).2 = Some q →
  q = trim message ∧ q ≠ [] ∧ isLoading = false ∧ disabled = false.
Proof.
  unfold ChatInput.handleSubmit.
  destruct (nonEmpty (trim message)) eqn:E, isLoading, disabled; cbn; try done.
  intros [= <-]. by destruct (trim message).
Qed.

(* ================================================================== *)
(** * The page over time *)

Section RunFacts.

Import ChatPage App.

Lemma run_invariant (I : World → Prop) :
  (∀ w ev w', I w → step w ev = Some w' → I w') →
  ∀ evs w w', I w → run w evs = Some w' → I w'.
Proof.
  intros Hstep. induction evs as [|ev evs IH]; intros w w' Hw Hrun.
  - by simplify_eq/=.
  - cbn in Hrun. destruct (step w ev) as [w1|] eqn:E; [|done].
    cbn in Hrun. eauto.
Qed.

Lemma step_requests w ev w' :
  step w ev = Some w' →
  Forall (λ r, sentByInput (question (ask r))) (requests w) →
  Forall (λ r, sentByInput (question (ask r))) (requests w').
Proof.
  intros Hstep Hall. destruct ev as [input userId now1 c t now2|t e|].
  - cbn in Hstep.
    destruct (ChatInput.handleSubmit input _ _).2 as [q|] eqn:E; [|by simplify_eq].
    simplify_eq/=. apply Forall_app. split; [done|].
    apply handleSubmit_sends in E as (-> & Hq & Hs & _).
    repeat constructor; cbn.
    + exists input. split; [|done]. unfold ChatInput.handleSubmit.
      by rewrite (nonEmpty_true _ Hq).
    + done.
    + apply trim_head.
    + apply trim_last.
  - cbn in Hstep. case_bool_decide; [|done].
    destruct (deliver t e (page w)); simplify_eq/=.
    destruct (terminalStatus e); [|done].
    unfold settleWhere. apply Forall_fmap. eapply Forall_impl; [done|].
    intros r Hr. cbn. destruct (bool_decide _); [|done].
    unfold settle. by destruct (status r).
  - cbn in Hstep. unfold handleStopGeneration in Hstep.
    destruct (abortController (page w)); simplify_eq/=; [|done].
    unfold settleWhere. apply Forall_fmap. eapply Forall_impl; [done|].
    intros r Hr. cbn. destruct (bool_decide _); [|done].
    unfold settle. by destruct (status r).
Qed.

(** C7.  Every request the page has sent carries a question that the chat
    input accepted while neither loading nor disabled: it is the trimmed
    text of the input, it is not empty, and it neither begins nor ends
    with white space. *)
Theorem question_is_trimmed_nonempty (uuid : jsstring) (evs : list Event) (w : World) :
  run (start uuid) evs = Some w →
  Forall (λ r, sentByInput (question (ask r))) (requests w).
Proof.
  intros Hrun.
  apply (run_invariant (λ w, Forall (λ r, sentByInput (question (ask r)))
                               (requests w))
           (λ w ev w' H Hs, step_requests w ev w' Hs H) evs (start uuid) w);
    [constructor|done].
Qed.

Lemma settle_not_inFlight s r : s ≠ InFlight → status (settle s r) ≠ InFlight.
Proof. intros Hs. unfold settle. destruct (status r) eqn:E; cbn; congruence. Qed.

Lemma settleWhere_idle P s rs :
  Forall (λ r, status r ≠ InFlight) rs →
  Forall (λ r, status r ≠ InFlight) (settleWhere P s rs).
Proof.
  intros H. unfold settleWhere. apply Forall_fmap. eapply Forall_impl; [done|].
  intros r Hr. cbn in *. destruct (P r); [|done].
  unfold settle. destruct (status r) eqn:E; cbn; congruence.
Qed.

Lemma settleWhere_last P s rs r :
  s ≠ InFlight → P r = true →
  Forall (λ r, status r ≠ InFlight) rs →
  Forall (λ r, status r ≠ InFlight) (settleWhere P s (rs ++ [r])).
Proof.
  intros Hs HP Hrs. unfold settleWhere. rewrite fmap_app. apply Forall_app.
  split; [by apply settleWhere_idle|].
  repeat constructor. rewrite HP. by apply settle_not_inFlight.
Qed.

Lemma filter_idle (rs : list Request) :
  Forall (λ r, status r ≠ InFlight) rs →
  filter (λ r, status r = InFlight) rs = [].
Proof.
  induction 1 as [|r rs Hr _ IH]; [done|]. by rewrite filter_cons_False.
Qed.

Lemma step_idle_or_busy w ev w' :
  match ev with
  | Handler t _ => tempId <$> last (requests w) = Some t
  | _ => True
  end →
  idle w ∨ busy w → step w ev = Some w' → idle w' ∨ busy w'.
Proof.
  intros Hlatest Hw Hstep. destruct ev as [input userId now1 c t now2|t e|].
  - cbn in Hstep.
    destruct (ChatInput.handleSubmit input _ _).2 as [q|] eqn:E; [|by simplify_eq].
    apply handleSubmit_sends in E as (_ & _ & Hs & _).
    destruct Hw as [[Hidle _]|(rs & r & _ & _ & _ & Hbusy & _)]; [|congruence].
    simplify_eq/=. right. by eexists _, _.
  - cbn in Hstep. case_bool_decide; [|done].
    destruct (deliver t e (page w)) as [st|] eqn:Hd; simplify_eq/=.
    destruct Hw as [[Hidle Hoff]|(rs & r & Hreqs & Hrs & Hr & Hstr & Hctl)].
    + left. split; cbn.
      * destruct (terminalStatus e); [by apply settleWhere_idle|done].
      * by destruct e as [[]|srcs sid|[]|]; simplify_eq/=.
    + rewrite Hreqs, last_snoc in Hlatest. simplify_eq/=.
      destruct e as [[]|srcs sid|[]|]; simplify_eq/=.
      * right. eexists rs, r. by repeat split.
      * left. split; [|done]. cbn. rewrite Hreqs.
        apply settleWhere_last; [done|by apply bool_decide_eq_true|done].
      * left. split; [|done]. cbn. rewrite Hreqs.
        apply settleWhere_last; [done|by apply bool_decide_eq_true|done].
      * right. eexists rs, r. by repeat split.
  - cbn in Hstep. unfold handleStopGeneration in Hstep.
    destruct Hw as [[Hidle Hoff]|(rs & r & Hreqs & Hrs & Hr & Hstr & Hctl)].
    + left.
      destruct (abortController (page w)); simplify_eq/=; [|done].
      split; [|done]. by apply settleWhere_idle.
    + rewrite Hctl in Hstep. simplify_eq/=. left. split; [|done]. cbn.
      rewrite Hreqs.
      apply settleWhere_last; [done|by apply bool_decide_eq_true|done].
Qed.

Lemma run_idle_or_busy evs w w' :
  latestOnly w evs → idle w ∨ busy w → run w evs = Some w' → idle w' ∨ busy w'.
Proof.
  revert w. induction evs as [|ev evs IH]; intros w Hl Hw Hrun.
  - by simplify_eq/=.
  - cbn in Hrun, Hl. destruct Hl as [Hev Hl].
    destruct (step w ev) as [w1|] eqn:E; [|done]. cbn in Hrun.
    eapply IH; [done| |done]. by eapply step_idle_or_busy.
Qed.

(** C9, as the code has it.  The page holds one [isStreaming] flag for
    all its requests, and every callback clears it, whichever request it
    belongs to.  As long as every callback comes from the request started
    last, at most one request is in flight at any time; [isStreaming] is
    set exactly while one is (every terminal state clears it), and the
    submit handler of the chat input then sends nothing. *)
Theorem one_request_in_flight (uuid : jsstring) (evs : list Event) (w : World) :
  latestOnly (start uuid) evs →
  run (start uuid) evs = Some w →
  (length (inFlight w) ≤ 1)%nat
  ∧ (isStreaming (page w) = true ↔ inFlight w ≠ [])
  ∧ (inFlight w ≠ [] →
     ∀ input userId now1 c t now2,
       step w (Submit input userId now1 c t now2) = Some w).
Proof.
  intros Hl Hrun.
  destruct (run_idle_or_busy evs (start uuid) w Hl) as [[Hidle Hoff]|Hbusy];
    [left; by split; [constructor|]|done|..].
  - assert (inFlight w = []) as ->.
    { unfold inFlight. by apply filter_idle. }
    rewrite Hoff. by repeat split; [cbn; lia|..].
  - destruct Hbusy as (rs & r & Hreqs & Hrs & Hr & Hstr & _).
    assert (inFlight w = [r]) as ->.
    { unfold inFlight. rewrite Hreqs, filter_app.
      rewrite (filter_idle rs Hrs). cbn [app].
      by rewrite filter_cons_True. }
    repeat split; [cbn; lia|done..|].
    intros _ *. cbn. rewrite Hstr. unfold ChatInput.handleSubmit.
    by rewrite andb_false_r.
Qed.

End RunFacts.

(* ================================================================== *)
(** * The statements on sample streams and runs *)

(** C1, as stated, fails.  The same bytes give [onChunk('Hi')] when they
    arrive in one read, nothing when the read ends after the event-type
    line, and a logged parse failure of the partial data line, parsed as
    if it were complete, when the read ends inside that line. *)
Lemma cut_event_is_lost :
  concat Sample.chunkCutBetweenLines = concat Sample.chunkWhole
  ∧ concat Sample.chunkCutInsideLine = concat Sample.chunkWhole
  ∧ askQuestionStream Json.parse (okResponse 200 Sample.chunkWhole Closed)
    = [OnChunk (JString (lit "Hi"))]
  ∧ askQuestionStream Json.parse (okResponse 200 Sample.chunkCutBetweenLines Closed) = []
  ∧ askQuestionStream Json.parse (okResponse 200 Sample.chunkCutInsideLine Closed)
    = [ConsoleError]
  ∧ ¬ splitIndependent Json.parse.
Proof.
  repeat split; try (by vm_compute).
  intros H.
  specialize (H 200 Sample.chunkCutBetweenLines Sample.chunkWhole Closed
                ltac:(by vm_compute)).
  by vm_compute in H.
Qed.

Lemma aligned_reads_same_trace_witness :
  askQuestionStream Json.parse (okResponse 200 Sample.twoReads Closed)
  = askQuestionStream Json.parse (okResponse 200 [concat Sample.twoReads] Closed)
  ∧ handlerCalls (askQuestionStream Json.parse (okResponse 200 Sample.twoReads Closed))
    = handlerCalls
        (askQuestionStream Json.parse (okResponse 200 [concat Sample.twoReads] Closed)).
Proof.
  apply (proj2 (aligned_reads_same_trace Json.parse) 200
           Sample.twoReads [concat Sample.twoReads] Closed).
  - constructor; [right; split; vm_compute; reflexivity|].
    constructor; [right; split; vm_compute; reflexivity|].
    constructor.
  - constructor; [right; split; vm_compute; reflexivity|].
    constructor.
  - vm_compute. reflexivity.
Defined.

(** C2, as stated, fails.  After [onComplete] the decoder goes on reading:
    a chunk of a later read is delivered, and the failure of the last read
    is reported by [onError], a second terminal notification. *)
Lemma events_after_complete_are_dispatched :
  askQuestionStream Json.parse Sample.eventsAfterComplete
  = [OnComplete (JArray []) (JString (lit "s1"));
     OnChunk (JString (lit "late"));
     OnError (JString (lit "network error"))]
  ∧ ¬ terminalIsFinal (askQuestionStream Json.parse Sample.eventsAfterComplete).
Proof.
  split; [by vm_compute|]. intros H.
  specialize (H [] (OnComplete (JArray []) (JString (lit "s1")))
                [OnChunk (JString (lit "late"));
                 OnError (JString (lit "network error"))]
                ltac:(by vm_compute) eq_refl).
  by vm_compute in H.
Qed.

Lemma protocol_stream_one_terminal_witness :
  terminalIsFinal
    (askQuestionStream Json.parse
       (okResponse 200 (encodeBlocks <$> [[Sample.blockHel]; [Sample.blockLo; Sample.blockDone]])
              Closed)).
Proof.
  apply (protocol_stream_one_terminal Json.parse 200
           [[Sample.blockHel]; [Sample.blockLo; Sample.blockDone]] Closed).
  - repeat (constructor; [repeat constructor|]); try constructor;
      apply (bool_decide_unpack _); vm_compute; exact I.
  - exists [Sample.blockHel; Sample.blockLo], [Sample.blockDone].
    split; [reflexivity|]. split; [simpl; lia|].
    constructor; [intros [H|H]; vm_compute in H; discriminate H|].
    constructor; [intros [H|H]; vm_compute in H; discriminate H|].
    constructor.
Defined.


Lemma unparseable_data_is_dropped_witness :
  ∃ out1 out2,
    askQuestionStream Json.parse
      (okResponse 200 ([] ++ (Sample.beforeCut ++ Sample.cutLine ++ LF :: Sample.afterCut) :: [])
             Closed)
    = out1 ++ ConsoleError :: out2
    ∧ askQuestionStream Json.parse
        (okResponse 200 ([] ++ (Sample.beforeCut ++ Sample.afterCut) :: []) Closed)
      = out1 ++ out2.
Proof.
  apply (unparseable_data_is_dropped Json.parse 200 [] []
           Sample.beforeCut Sample.cutLine Sample.afterCut Closed).
  - vm_compute. reflexivity.
  - apply (bool_decide_unpack _). vm_compute. exact I.
  - vm_compute. reflexivity.
  - intros H. vm_compute in H. discriminate H.
  - vm_compute. reflexivity.
  - intros H. vm_compute in H. discriminate H.
Defined.

Lemma question_is_trimmed_nonempty_witness :
  Forall (λ r, App.sentByInput (question (App.ask r)))
    (App.requests Sample.orderlyWorld).
Proof.
  apply (question_is_trimmed_nonempty (lit "session") Sample.orderlyRun
           Sample.orderlyWorld).
  vm_compute. reflexivity.
Defined.

(** C9, as stated, fails.  The body of the first request completes and
    then fails at its next read; the failure arrives when the second
    question is being answered and clears [isStreaming]; the chat input
    accepts a third question, and two requests are in flight. *)
Lemma late_failure_two_in_flight :
  askQuestionStream Json.parse Sample.failureAfterComplete
  = [OnComplete (JArray []) (JString (lit "s1"));
     OnError (JString (lit "network error"))]
  ∧ (∃ w, App.run (App.start (lit "session")) Sample.lateFailureRun = Some w
          ∧ App.tempId <$> App.inFlight w = [lit "id-4"; lit "id-6"])
  ∧ ¬ App.oneInFlight.
Proof.
  split; [by vm_compute|].
  assert (∃ w, App.run (App.start (lit "session")) Sample.lateFailureRun = Some w
               ∧ App.tempId <$> App.inFlight w = [lit "id-4"; lit "id-6"])
    as (w & Hrun & Hw).
  { eexists. split; vm_compute; reflexivity. }
  split; [by exists w|].
  intros H. specialize (H _ _ _ Hrun).
  apply (f_equal length) in Hw. rewrite length_fmap in Hw. simpl in Hw. lia.
Qed.

Lemma one_request_in_flight_witness :
  (length (App.inFlight Sample.orderlyWorld) ≤ 1)%nat
  ∧ (ChatPage.isStreaming (App.page Sample.orderlyWorld) = true
     ↔ App.inFlight Sample.orderlyWorld ≠ [])
  ∧ (App.inFlight Sample.orderlyWorld ≠ [] →
     ∀ input userId now1 c t now2,
       App.step Sample.orderlyWorld (App.Submit input userId now1 c t now2)
       = Some Sample.orderlyWorld).
Proof.
  apply (one_request_in_flight (lit "session") Sample.orderlyRun Sample.orderlyWorld).
  - vm_compute. repeat split.
  - vm_compute. reflexivity.
Defined.

(** An empty chunk is dropped without a trace; an empty list of sources is
    delivered, [null] sources are not; a [null] payload makes the property
    access throw, which is logged. *)
Example dispatch_samples :
  dispatch Json.parse (lit "answer_chunk") (json "{'chunk': ''}") = []
  ∧ dispatch Json.parse (lit "answer_chunk") (json "{'chunk': 'Hi'}")
    = [OnChunk (JString (lit "Hi"))]
  ∧ dispatch Json.parse (lit "answer_complete") (json "{'sources': [], 'session_id': 's1'}")
    = [OnComplete (JArray []) (JString (lit "s1"))]
  ∧ dispatch Json.parse (lit "answer_complete") (json "{'sources': null}") = []
  ∧ dispatch Json.parse (lit "error") (json "{}")
    = [OnError (JString (lit "Unknown error"))]
  ∧ dispatch Json.parse (lit "answer_chunk") (json "null") = [ConsoleError]
  ∧ dispatch Json.parse (lit "answer_chunk") (json "{'chunk': ") = [ConsoleError].
Proof. repeat split; by vm_compute. Qed.

(** The stream of [Sample.twoReads], aborted while its second read is
    pending. *)
Example abort_sample :
  askQuestionStream Json.parse
    (Response true 200
       (Some (abortedAfter 1 (lit "The user aborted a request.")
                {| reads := Sample.twoReads; ending := Closed |})))
  = [OnChunk (JString (lit "Hel")); OnError (JString (lit "Request cancelled"))].
Proof. by vm_compute. Qed.

(** The history after a question was answered and a second one was
    stopped: the cancelled answer is left out. *)
Example history_sample :
  chat_history (App.ask
    (default
       {| App.tempId := []; App.controller := 0;
          App.ask := {| question := []; session_id := []; chat_history := [] |};
          App.status := App.InFlight |}
       (w ← App.run Sample.orderlyWorld
              [App.Submit (lit "third") (lit "id-5") (lit "09:02") 3
                 (lit "id-6") (lit "09:02")];
        last (App.requests w))))
  = [ {| role := user; content := lit "first"; turnTimestamp := lit "09:00" |};
      {| role := assistant; content := lit "Hello"; turnTimestamp := lit "09:00" |};
      {| role := user; content := lit "second"; turnTimestamp := lit "09:01" |} ].
Proof. by vm_compute. Qed.

(* ================================================================== *)
(** * More on the line loop *)

Section LineFacts.

Variable JSON_parse : jsstring → option JSValue.

Lemma processLine_other st line :
  startsWith line (lit "event: ") = false →
  startsWith line (lit "data: ") = false →
  processLine JSON_parse st line = (st, []).
Proof. intros He Hd. unfold processLine. by rewrite He, Hd. Qed.

Lemma processLine_event_line st line :
  startsWith line (lit "event: ") = true →
  processLine JSON_parse st line
  = ({| currentEvent := trim (slice 7 line); currentData := currentData st |}, []).
Proof. intros He. unfold processLine. by rewrite He. Qed.

Lemma processLines_no_event st ls :
  currentEvent st = [] →
  Forall (λ l, startsWith l (lit "event: ") = false) ls →
  (processLines JSON_parse st ls).2 = [].
Proof.
  intros Hst H. revert st Hst.
  induction H as [|l ls Hl _ IH]; intros st Hst; [done|].
  cbn [processLines]. unfold processLine. rewrite Hl.
  destruct (startsWith l (lit "data: ")).
  - rewrite Hst, andb_false_r.
    specialize (IH {| currentEvent := []; currentData := trim (slice 6 l) |} eq_refl).
    by destruct (processLines JSON_parse _ ls).
  - specialize (IH st Hst). by destruct (processLines JSON_parse st ls).
Qed.

(** X1.  The event type is not kept from one read to the next: a read
    that has no event-type line dispatches nothing wherever it stands in
    the body, also right after a read that ended with an event-type line.
    Such a read can be taken out of the body, and the trace is the same. *)
Theorem reads_without_event_line_dispatch_nothing
    (status : N) (before : list jsstring) (text : jsstring)
    (after : list jsstring) (e : StreamEnd) :
  Forall (λ l, startsWith l (lit "event: ") = false) (split text) →
  askQuestionStream JSON_parse (okResponse status (before ++ text :: after) e)
  = askQuestionStream JSON_parse (okResponse status (before ++ after) e).
Proof.
  intros H. rewrite !askQuestionStream_ok, !readLoop_app, readLoop_cons.
  assert (processChunk JSON_parse text = []) as ->; [|done].
  exact (processLines_no_event start0 (split text) eq_refl H).
Qed.

(** X2.  A line that begins with neither [event: ] nor [data: ] (a
    comment, an [id:] or [retry:] field, a field written without the space
    after the colon) can be taken out of a read without any change to what
    the read dispatches. *)
Theorem other_lines_are_ignored (a line b : jsstring) :
  a = [] ∨ last a = Some LF →
  noLF line →
  startsWith line (lit "event: ") = false →
  startsWith line (lit "data: ") = false →
  processChunk JSON_parse (a ++ line ++ LF :: b) = processChunk JSON_parse (a ++ b).
Proof.
  intros Ha Hline He Hd. unfold processChunk.
  destruct Ha as [->|Ha].
  - cbn [app]. rewrite split_app_LF, (split_noLF line Hline).
    cbn [app processLines]. rewrite (processLine_other _ _ He Hd).
    by destruct (processLines JSON_parse _ (split b)).
  - apply last_Some in Ha as [a' ->]. rewrite <- !app_assoc. cbn [app].
    rewrite !split_app_LF, (split_noLF line Hline), !processLines_app.
    destruct (processLines JSON_parse _ (split a')) as [st1 o1].
    cbn [app processLines]. rewrite (processLine_other _ _ He Hd).
    by destruct (processLines JSON_parse st1 (split b)).
Qed.

Lemma startsWith_snoc l x p c :
  last p = Some c → c ≠ x → startsWith (l ++ [x]) p = startsWith l p.
Proof.
  revert l. induction p as [|d p IH]; intros l Hlast Hc; [done|].
  destruct l as [|e l]; cbn [app startsWith].
  - destruct p as [|d' p]; [|by rewrite andb_false_r].
    simplify_eq/=. by rewrite (proj2 (N.eqb_neq _ _) Hc).
  - destruct p as [|d' p]; [done|]. rewrite IH; [done| |done].
    by rewrite last_cons_cons in Hlast.
Qed.

Lemma trimStart_snoc s c :
  isWhiteSpace c = true →
  trimStart (s ++ [c]) = match trimStart s with [] => [] | _ => trimStart s ++ [c] end.
Proof.
  intros Hc. induction s as [|d s IH]; cbn [app trimStart]; [by rewrite Hc|].
  by destruct (isWhiteSpace d).
Qed.

Lemma trimEnd_snoc s c : isWhiteSpace c = true → trimEnd (s ++ [c]) = trimEnd s.
Proof.
  intros Hc. unfold trimEnd. rewrite reverse_snoc. cbn [trimStart]. by rewrite Hc.
Qed.

Lemma trim_snoc s c : isWhiteSpace c = true → trim (s ++ [c]) = trim s.
Proof.
  intros Hc. unfold trim. rewrite (trimStart_snoc s c Hc).
  destruct (trimStart s) eqn:E; [done|]. by rewrite trimEnd_snoc.
Qed.

Lemma startsWith_length l p : startsWith l p = true → (length p ≤ length l)%nat.
Proof.
  revert l. induction p as [|c p IH]; intros l H; [cbn; lia|].
  destruct l as [|d l]; [done|]. cbn in *.
  apply andb_true_iff in H as [_ H]. apply IH in H. lia.
Qed.

Lemma processLine_CR st line :
  processLine JSON_parse st (line ++ [CR]) = processLine JSON_parse st line.
Proof.
  unfold processLine.
  rewrite !(startsWith_snoc line CR _ 32) by done.
  destruct (startsWith line (lit "event: ")) eqn:He.
  - apply startsWith_length in He. change (length (lit "event: ")) with 7%nat in He.
    unfold slice. rewrite drop_app_le by done. by rewrite trim_snoc.
  - destruct (startsWith line (lit "data: ")) eqn:Hd; [|done].
    apply startsWith_length in Hd. change (length (lit "data: ")) with 6%nat in Hd.
    unfold slice. rewrite drop_app_le by done. by rewrite trim_snoc.
Qed.

Lemma processLines_crLines st ls :
  processLines JSON_parse st (crLines ls) = processLines JSON_parse st ls.
Proof.
  revert st. induction ls as [|l ls IH]; intros st; [done|].
  destruct ls as [|l' ls]; [done|].
  cbn [crLines processLines] in *. rewrite processLine_CR.
  destruct (processLine JSON_parse st l) as [st1 o1]. by rewrite IH.
Qed.

Lemma split_toCRLF s : split (toCRLF s) = crLines (split s).
Proof.
  induction s as [|c s IH]; [done|].
  change (toCRLF (c :: s))
    with ((if decide (c = LF) then [CR; LF] else [c]) ++ toCRLF s).
  pose proof (split_nonempty s) as Hne.
  cbn [split]. destruct (decide (c = LF)) as [->|Hc].
  - cbn [app split].
    destruct (decide (CR = LF)) as [E|_]; [done|].
    destruct (decide (LF = LF)); [|done]. rewrite IH.
    by destruct (split s).
  - cbn [app split]. destruct (decide (c = LF)); [done|]. rewrite IH.
    destruct (split s) as [|l [|l' ls]]; done.
Qed.

(** X3.  A body whose lines end in CR LF is decoded exactly like the same
    body with bare line feeds: the carriage return left at the end of a
    line by [split] is removed by [trim], or ignored with the line. *)
Theorem crlf_body_same_trace (status : N) (texts : list jsstring) (e : StreamEnd) :
  askQuestionStream JSON_parse (okResponse status (toCRLF <$> texts) e)
  = askQuestionStream JSON_parse (okResponse status texts e).
Proof.
  rewrite !askQuestionStream_ok. f_equal.
  induction texts as [|t ts IH]; [done|].
  rewrite fmap_cons, !readLoop_cons, IH. f_equal.
  unfold processChunk. by rewrite split_toCRLF, processLines_crLines.
Qed.

Lemma encodeMulti_split ev ds :
  noLF ev → Forall noLF ds →
  split (encodeMulti ev ds)
  = (lit "event: " ++ ev) :: ((λ d, lit "data: " ++ d) <$> ds) ++ [[]].
Proof.
  intros Hev Hds. unfold encodeMulti.
  replace (lit "event: " ++ ev ++ [LF] ++ concat ((λ d, lit "data: " ++ d ++ [LF]) <$> ds))
    with ((lit "event: " ++ ev) ++ LF :: concat ((λ d, lit "data: " ++ d ++ [LF]) <$> ds))
    by (by rewrite <- !app_assoc).
  rewrite split_app_LF.
  rewrite split_noLF by (by apply (noLF_app JSON_parse); [apply noLF_event|]).
  cbn [app]. f_equal.
  induction Hds as [|d ds Hd _ IH]; [done|].
  cbn [fmap list_fmap concat].
  replace ((lit "data: " ++ d ++ [LF]) ++ concat ((λ d, lit "data: " ++ d ++ [LF]) <$> ds))
    with ((lit "data: " ++ d) ++ LF :: concat ((λ d, lit "data: " ++ d ++ [LF]) <$> ds))
    by (by rewrite <- !app_assoc).
  rewrite split_app_LF.
  rewrite split_noLF by (by apply (noLF_app JSON_parse); [apply noLF_data|]).
  cbn [app]. f_equal. exact IH.
Qed.

Lemma processLines_data_lines ev cd ds :
  (processLines JSON_parse {| currentEvent := ev; currentData := cd |}
     (((λ d, lit "data: " ++ d) <$> ds) ++ [[]])).2
  = concat ((λ d, if nonEmpty (trim d) && nonEmpty ev
                  then dispatch JSON_parse ev (trim d) else []) <$> ds).
Proof.
  revert cd. induction ds as [|d ds IH]; intros cd; [done|].
  cbn [fmap list_fmap app processLines concat].
  rewrite processLine_data by apply startsWith_app.
  change (slice 6 (lit "data: " ++ d)) with d. cbn [currentEvent].
  specialize (IH (trim d)). fold (fmap (λ d, lit "data: " ++ d) ds).
  destruct (processLines JSON_parse _ (_ ++ [[]])). cbn in *. by subst.
Qed.

(** X4.  The event type stays in force after a dispatch: when several data
    lines follow one event-type line in a read, every one of them is
    dispatched on its own as an event of that type (they are not joined
    into one payload). *)
Theorem data_lines_share_event_type (ev : jsstring) (ds : list jsstring) :
  noLF ev → Forall noLF ds →
  processChunk JSON_parse (encodeMulti ev ds)
  = concat ((λ d, blockEffects JSON_parse {| blockEvent := ev; blockData := d |})
              <$> ds).
Proof.
  intros Hev Hds. unfold processChunk.
  rewrite (encodeMulti_split ev ds Hev Hds). cbn [processLines].
  rewrite processLine_event_line by apply startsWith_app.
  change (slice 7 (lit "event: " ++ ev)) with ev.
  pose proof (processLines_data_lines (trim ev) [] ds) as H.
  destruct (processLines JSON_parse _ (_ ++ [[]])). cbn in *. by subst.
Qed.

Lemma processLines_bound st ls :
  (length (processLines JSON_parse st ls).2
   ≤ length (filter (λ l, startsWith l (lit "data: ") = true) ls))%nat.
Proof.
  revert st. induction ls as [|l ls IH]; intros st; [done|].
  cbn [processLines]. rewrite filter_cons.
  destruct (startsWith l (lit "data: ")) eqn:Hd.
  - rewrite (processLine_data _ _ _ Hd).
    specialize (IH {| currentEvent := currentEvent st;
                      currentData := trim (slice 6 l) |}).
    destruct (processLines JSON_parse _ ls) as [st2 o2].
    destruct (decide (true = true)); [|done].
    cbn in *. rewrite length_app.
    assert (length (if nonEmpty (trim (slice 6 l)) && nonEmpty (currentEvent st)
                    then dispatch JSON_parse (currentEvent st) (trim (slice 6 l))
                    else []) ≤ 1)%nat
      by (destruct (_ && _); [apply dispatch_length|cbn; lia]).
    lia.
  - destruct (decide (false = true)); [done|].
    unfold processLine. rewrite Hd.
    destruct (startsWith l (lit "event: ")).
    + specialize (IH {| currentEvent := trim (slice 7 l);
                        currentData := currentData st |}).
      by destruct (processLines JSON_parse _ ls).
    + specialize (IH st). by destruct (processLines JSON_parse st ls).
Qed.

Lemma readLoop_bound texts :
  (length (readLoop JSON_parse texts) ≤ dataLines texts)%nat.
Proof.
  unfold dataLines. induction texts as [|t ts IH]; [done|].
  rewrite readLoop_cons, length_app. cbn [mbind list_bind].
  rewrite filter_app, length_app.
  pose proof (processLines_bound start0 (split t)) as H.
  unfold processChunk. unfold start0 in H. lia.
Qed.

(** X5.  The decoder invents no event: a request invokes its handlers at
    most once per data line of the body, and once more when the body
    fails. *)
Theorem trace_bounded_by_data_lines (status : N) (texts : list jsstring) (e : StreamEnd) :
  (length (handlerCalls (askQuestionStream JSON_parse (okResponse status texts e)))
   ≤ dataLines texts + (if e is Closed then 0 else 1))%nat.
Proof.
  unfold handlerCalls.
  etransitivity; [apply length_filter|].
  rewrite askQuestionStream_ok, length_app.
  pose proof (readLoop_bound texts).
  destruct e as [|t]; cbn [length]; [lia|]. rewrite catchBlock_length. lia.
Qed.

End LineFacts.

(* ================================================================== *)
(** * More on the page *)

Section MorePageFacts.

Import ChatPage App.

Lemma lit_cons a s : lit (String a s) = N_of_ascii a :: lit s.
Proof. reflexivity. Qed.

Lemma uint_digits (d : Decimal.uint) c :
  c ∈ lit (NilEmpty.string_of_uint d) → 48 ≤ c ≤ 57.
Proof.
  induction d; cbn [NilEmpty.string_of_uint];
    [by intros ?%elem_of_nil|rewrite lit_cons, elem_of_cons; intros [->|H]; [by vm_compute|auto]..].
Qed.

Lemma decimal_digits n c : c ∈ decimal n → 48 ≤ c ≤ 57.
Proof.
  unfold decimal, NilZero.string_of_uint.
  destruct (N.to_uint n) eqn:E; try (rewrite <- E; apply uint_digits).
  rewrite lit_cons, elem_of_cons. intros [->|H%elem_of_nil]; [by vm_compute|done].
Qed.

Lemma startsWith_elem s p c : startsWith s p = true → c ∈ p → c ∈ s.
Proof.
  revert s. induction p as [|d p IH]; intros s H Hc; [by apply elem_of_nil in Hc|].
  destruct s as [|e s]; [done|]. cbn in H.
  apply andb_true_iff in H as [->%N.eqb_eq H].
  apply elem_of_cons in Hc as [->|Hc]; [left|right; eauto].
Qed.

Lemma includes_elem s p c : includes s p = true → c ∈ p → c ∈ s.
Proof.
  intros H Hc. induction s as [|e s IH].
  - cbn in H. rewrite orb_false_r in H. by eapply startsWith_elem.
  - rewrite includes_unfold in H. apply orb_true_iff in H as [H|H].
    + by eapply startsWith_elem.
    + right. auto.
Qed.

(** The message of an HTTP failure is not taken for a cancellation. *)
Lemma http_message_not_cancellation status :
  bool_decide (lit "HTTP error! status: " ++ decimal status = lit "Request cancelled")
  || includes (lit "HTTP error! status: " ++ decimal status) (lit "cancelled")
  || includes (lit "HTTP error! status: " ++ decimal status) (lit "aborted")
  = false.
Proof.
  assert (∀ c, c = 98 ∨ c = 99 →
               c ∉ lit "HTTP error! status: " ++ decimal status) as Hno.
  { intros c Hc [H|H%decimal_digits]%elem_of_app; [|lia].
    revert H. apply (bool_decide_unpack _). destruct Hc as [->| ->]; by vm_compute. }
  apply orb_false_iff. split; [apply orb_false_iff; split|].
  - apply bool_decide_eq_false.
    change (lit "HTTP error! status: ") with (72 :: lit "TTP error! status: ").
    change (lit "Request cancelled") with (82 :: lit "equest cancelled").
    by intros [=].
  - apply not_true_iff_false. intros H.
    apply (Hno 99); [by right|]. eapply includes_elem; [done|].
    apply (bool_decide_unpack _). by vm_compute.
  - apply not_true_iff_false. intros H.
    apply (Hno 98); [by left|]. eapply includes_elem; [done|].
    apply (bool_decide_unpack _). by vm_compute.
Qed.

Lemma failed_messages t b st m :
  m ∈ messages (failed t b st) → Msg.id m = t →
  Msg.message m = (if b then cancelledText else sorryText)
  ∧ Msg.isStreaming m = Some false.
Proof.
  unfold failed, finish, setMessages, mapTemp. cbn.
  intros (m0 & -> & Hm0)%list_elem_of_fmap Hid.
  destruct (decide (Msg.id m0 = t)); [done|]. by destruct n.
Qed.

(** X6.  A response that is not [ok], whatever its status and its body,
    and a response without a body, end the request with one [onError] and
    nothing else; on the page the message of the request then reads
    "Sorry, I encountered an error ..." (never the cancellation text), it
    is no longer streaming, and the page is no longer streaming. *)
Theorem http_failure_shows_error
    (JSON_parse : jsstring → option JSValue) (status : N) (body : option Body)
    (t : jsstring) (st : State) :
  askQuestionStream JSON_parse (Response false status body)
  = [OnError (JString (lit "HTTP error! status: " ++ decimal status))]
  ∧ askQuestionStream JSON_parse (Response true status None)
    = [OnError (JString (lit "No response body"))]
  ∧ ∀ r, r = Response false status body ∨ r = Response true status None →
      ∃ st', deliverAll t (askQuestionStream JSON_parse r) st = Some st'
             ∧ isStreaming st' = false
             ∧ abortController st' = None
             ∧ skeleton (messages st') = skeleton (messages st)
             ∧ ∀ m, m ∈ messages st' → Msg.id m = t →
                    Msg.message m = sorryText ∧ Msg.isStreaming m = Some false.
Proof.
  split; [done|]. split; [done|].
  intros r [->| ->].
  - exists (failed t false st). unfold askQuestionStream. cbn [tryBlock from_option app catchBlock].
    destruct (decide (lit "Error" = lit "AbortError")) as [E|_]; [by vm_compute in E|].
    cbn [deliverAll deliver mbind option_bind]. unfold onError.
    rewrite http_message_not_cancellation.
    repeat split; try done.
    + unfold skeleton, failed, finish, setMessages, mapTemp. cbn.
      rewrite <- list_fmap_compose. apply list_fmap_ext. intros i m _. cbn.
      by destruct (decide _).
    + by eapply (failed_messages t false).
    + by eapply (failed_messages t false).
  - exists (failed t false st). split; [done|].
    repeat split; try done.
    + unfold skeleton, failed, finish, setMessages, mapTemp. cbn.
      rewrite <- list_fmap_compose. apply list_fmap_ext. intros i m _. cbn.
      by destruct (decide _).
    + by eapply (failed_messages t false).
    + by eapply (failed_messages t false).
Qed.

End MorePageFacts.

Section ConversationFacts.

Import ChatPage App.

Lemma sessionId_deliver t e st st' :
  deliver t e st = Some st' → sessionId st' = sessionId st.
Proof. destruct e as [[]|? ?|[]|]; intros; by simplify_eq/=. Qed.

Lemma step_session uuid w ev w' :
  sessionId (page w) = uuid ∧ Forall (λ r, session_id (ask r) = uuid) (requests w) →
  step w ev = Some w' →
  sessionId (page w') = uuid ∧ Forall (λ r, session_id (ask r) = uuid) (requests w').
Proof.
  intros [Hs Hall] Hstep. destruct ev as [input userId now1 c t now2|t e|].
  - cbn in Hstep.
    destruct (ChatInput.handleSubmit input _ _).2 as [q|]; simplify_eq/=; [|done].
    split; [done|]. apply Forall_app. by repeat constructor.
  - cbn in Hstep. case_bool_decide; [|done].
    destruct (deliver t e (page w)) as [st|] eqn:Hd; simplify_eq/=.
    split; [by eapply sessionId_deliver|].
    destruct (terminalStatus e); [|done].
    unfold settleWhere. apply Forall_fmap. eapply Forall_impl; [done|].
    intros r Hr. cbn in *. destruct (bool_decide _); [|done].
    unfold settle. by destruct (status r).
  - cbn in Hstep. unfold handleStopGeneration in Hstep.
    destruct (abortController (page w)); simplify_eq/=; [|done].
    split; [done|].
    unfold settleWhere. apply Forall_fmap. eapply Forall_impl; [done|].
    intros r Hr. cbn in *. destruct (bool_decide _); [|done].
    unfold settle. by destruct (status r).
Qed.

(** X7.  The session identifier is fixed when the page mounts: every
    request of the page carries it, and nothing that happens afterwards
    changes it; in particular the [session_id] that arrives with
    [answer_complete] is not taken over. *)
Theorem session_id_never_changes (uuid : jsstring) (evs : list Event) (w : World) :
  run (start uuid) evs = Some w →
  sessionId (page w) = uuid
  ∧ Forall (λ r, session_id (ask r) = uuid) (requests w).
Proof.
  intros Hrun.
  apply (run_invariant
           (λ w, sessionId (page w) = uuid
                 ∧ Forall (λ r, session_id (ask r) = uuid) (requests w))
           (step_session uuid) evs (start uuid) w); [by split|done].
Qed.

Lemma skeleton_mapTemp t f ms :
  (∀ m, Msg.id (f m) = Msg.id m ∧ Msg.isUser (f m) = Msg.isUser m
        ∧ Msg.timestamp (f m) = Msg.timestamp m) →
  skeleton (mapTemp t f ms) = skeleton ms.
Proof.
  intros Hf. unfold skeleton, mapTemp. rewrite <- list_fmap_compose.
  apply list_fmap_ext. intros i m _. cbn.
  destruct (decide _); [|done]. destruct (Hf m) as (-> & -> & ->). done.
Qed.

Lemma skeleton_deliver t e st st' :
  deliver t e st = Some st' → skeleton (messages st') = skeleton (messages st).
Proof.
  destruct e as [[]|? ?|[]|]; intros; simplify_eq/=; try done;
    by apply skeleton_mapTemp.
Qed.

Lemma skeleton_stop render st ab :
  skeleton (messages (handleStopGeneration render (st, ab)).1)
  = skeleton (messages st).
Proof.
  unfold handleStopGeneration. destruct (abortController render); [|done].
  cbn. unfold skeleton. rewrite <- list_fmap_compose.
  apply list_fmap_ext. intros i m _. cbn. by destruct (bool_decide _).
Qed.

Lemma step_skeleton w ev w' :
  step w ev = Some w' →
  skeleton (messages (page w)) `prefix_of` skeleton (messages (page w')).
Proof.
  intros Hstep. destruct ev as [input userId now1 c t now2|t e|].
  - cbn in Hstep.
    destruct (ChatInput.handleSubmit input _ _).2 as [q|]; simplify_eq/=; [|done].
    unfold skeleton. rewrite !fmap_app, <- app_assoc. by apply prefix_app_r.
  - cbn in Hstep. case_bool_decide; [|done].
    destruct (deliver t e (page w)) as [st|] eqn:Hd; simplify_eq/=.
    by rewrite (skeleton_deliver _ _ _ _ Hd).
  - cbn in Hstep.
    pose proof (skeleton_stop (page w) (page w) (aborted w)) as H.
    destruct (handleStopGeneration _ _) as [st ab]. simplify_eq/=. by rewrite H.
Qed.

(** X8.  The conversation on the page only grows at its end: whatever
    happens (questions, chunks, completions, errors, stops, in any order
    and from any request), the messages keep their number, order,
    identifier, author and timestamp, and new ones are added after them. *)
Theorem conversation_is_append_only (w : World) (evs : list Event) (w' : World) :
  run w evs = Some w' →
  skeleton (messages (page w)) `prefix_of` skeleton (messages (page w')).
Proof.
  revert w. induction evs as [|ev evs IH]; intros w Hrun.
  - by simplify_eq/=.
  - cbn in Hrun. destruct (step w ev) as [w1|] eqn:E; [|done]. cbn in Hrun.
    etrans; [by eapply step_skeleton|by apply IH].
Qed.

(** X9.  The callbacks of a request touch the message of that request
    only: a message with another identifier is left exactly as it was, at
    its place. *)
Theorem callbacks_leave_other_messages (t : jsstring) (e : Effect) (st st' : State) :
  deliver t e st = Some st' →
  length (messages st') = length (messages st)
  ∧ ∀ i m, messages st !! i = Some m → Msg.id m ≠ t → messages st' !! i = Some m.
Proof.
  intros Hd.
  assert (∀ f, length (mapTemp t f (messages st)) = length (messages st)
               ∧ ∀ i m, messages st !! i = Some m → Msg.id m ≠ t →
                        mapTemp t f (messages st) !! i = Some m) as Hmap.
  { intros f. unfold mapTemp. split; [by rewrite length_fmap|].
    intros i m Hi Hm. rewrite list_lookup_fmap, Hi. cbn.
    by destruct (decide _). }
  destruct e as [[]|? ?|[]|]; simplify_eq/=; try done; apply Hmap.
Qed.

(** X10.  The submit button and the submit handler of the chat input
    agree: the button is disabled exactly when [handleSubmit] would send
    nothing, and a submit that sends nothing leaves the text area as it
    is, while one that sends empties it. *)
Theorem button_agrees_with_submit (message : jsstring) (isLoading disabled : bool) :
  (submitDisabled message isLoading disabled = true
   ↔ (ChatInput.handleSubmit message isLoading disabled).2 = None)
  ∧ (ChatInput.handleSubmit message isLoading disabled).1
    = (if submitDisabled message isLoading disabled then message else []).
Proof.
  unfold submitDisabled, ChatInput.handleSubmit.
  by destruct (nonEmpty (trim message)), isLoading, disabled.
Qed.

Lemma trimStart_blank s :
  Forall (λ c, isWhiteSpace c = true) s → trimStart s = [].
Proof. induction 1 as [|c s Hc _ IH]; [done|]. cbn. by rewrite Hc. Qed.

(** X11.  An input of white space only is never sent: in any state of the
    page, submitting it starts no request and changes nothing. *)
Theorem blank_input_is_not_sent (w : World) (input userId now1 : jsstring)
    (c : nat) (t now2 : jsstring) :
  Forall (λ c, isWhiteSpace c = true) input →
  (ChatInput.handleSubmit input false false).2 = None
  ∧ step w (Submit input userId now1 c t now2) = Some w.
Proof.
  intros H. unfold step, ChatInput.handleSubmit, trim.
  by rewrite (trimStart_blank input H).
Qed.

(** X12.  The spinner of a message ("Generating answer...") shows for the
    assistant message of a request from its start, and is gone once the
    decoder has delivered a chunk to it: the decoder delivers truthy
    chunks only, so the text is then not empty. *)
Theorem spinner_until_first_chunk
    (JSON_parse : jsstring → option JSValue) (ev d c : jsstring)
    (render st : State) (q t now : jsstring) (controller : nat) :
  t ∉ Msg.id <$> messages st →
  OnChunk (JString c) ∈ dispatch JSON_parse ev d →
  ∃ m1 m2,
    find t (messages (handleStreamingResponse render q controller t now st).1)
    = Some m1
    ∧ ChatMessage.showsSpinner m1 = true
    ∧ find t (messages
        (onChunk t c (handleStreamingResponse render q controller t now st).1))
      = Some m2
    ∧ ChatMessage.showsSpinner m2 = false.
Proof.
  intros Hfresh Hc.
  apply dispatch_OnChunk_inv in Hc as (_ & data & _ & _ & Htruthy).
  cbn in Htruthy.
  set (st1 := (handleStreamingResponse render q controller t now st).1).
  set (m := {| Msg.id := t; Msg.message := []; Msg.isUser := false;
               Msg.timestamp := now; Msg.sources := None;
               Msg.isStreaming := Some true |}).
  assert (messages st1 = messages st ++ [m]) as Hst1 by done.
  destruct (onChunk_last t c st1 (messages st) m Hst1 Hfresh eq_refl)
    as (Hmsgs & _ & _).
  eexists m, _. rewrite Hst1, Hmsgs, !find_last by done.
  repeat split. unfold ChatMessage.showsSpinner. cbn.
  by rewrite Htruthy.
Qed.

End ConversationFacts.

Section TidyFacts.

Import ChatPage App.

Lemma chatHistory_app ms1 ms2 :
  chatHistory (ms1 ++ ms2) = chatHistory ms1 ++ chatHistory ms2.
Proof. unfold chatHistory. by rewrite filter_app, fmap_app. Qed.

Lemma fold_chatHistory ms :
  toTurn <$> filter (λ msg, isError msg = false) ms = chatHistory ms.
Proof. reflexivity. Qed.

Lemma chain_snoc hs h :
  chain hs → Forall (λ a, a `prefix_of` h) hs → chain (hs ++ [h]).
Proof.
  intros Hc Hall i j a b Hij Hi Hj.
  destruct (decide (j < length hs)%nat) as [Hlt|Hge].
  - rewrite lookup_app_l in Hi, Hj by lia. exact (Hc i j a b Hij Hi Hj).
  - assert (b = h) as ->.
    { rewrite lookup_app_r in Hj by lia.
      destruct (j - length hs)%nat as [|k]; by simplify_eq/=. }
    destruct (decide (i < length hs)%nat) as [Hlt|Hge'].
    + rewrite lookup_app_l in Hi by lia.
      rewrite Forall_forall in Hall. eapply Hall, list_elem_of_lookup_2, Hi.
    + rewrite lookup_app_r in Hi by lia.
      destruct (i - length hs)%nat as [|k]; by simplify_eq/=.
Qed.

Lemma settleWhere_histories P s rs :
  (λ r, chat_history (ask r)) <$> settleWhere P s rs
  = (λ r, chat_history (ask r)) <$> rs.
Proof.
  unfold settleWhere. rewrite <- list_fmap_compose. apply list_fmap_ext.
  intros i r _. cbn. destruct (P r); [|done]. unfold settle. by destruct (status r).
Qed.

Lemma settleWhere_shape P s rs r :
  ∃ r', settleWhere P s (rs ++ [r]) = settleWhere P s rs ++ [r']
        ∧ tempId r' = tempId r.
Proof.
  unfold settleWhere. rewrite fmap_app. eexists. split; [done|].
  destruct (P r); [|done]. unfold settle. by destruct (status r).
Qed.

(** A callback of the request whose message is last keeps that shape. *)
Lemma deliver_last t e st st' ms m :
  deliver t e st = Some st' →
  messages st = ms ++ [m] → t ∉ Msg.id <$> ms → Msg.id m = t →
  (isStreaming st = false → Msg.isStreaming m ≠ Some true) →
  ∃ m', messages st' = ms ++ [m'] ∧ Msg.id m' = t
        ∧ (isStreaming st' = false → Msg.isStreaming m' ≠ Some true).
Proof.
  intros Hd Hst Hms Hm Hquiet.
  destruct e as [[]|srcs sid|[]|]; simplify_eq/=;
    rewrite ?Hst, ?(mapTemp_last _ _ _ _ Hms eq_refl); by eexists.
Qed.

(** [handleStopGeneration] on a page whose last message alone may be
    streaming. *)
Lemma stop_last render st ab ms m :
  messages st = ms ++ [m] →
  Forall (λ m, Msg.isStreaming m ≠ Some true) ms →
  (abortController render = None → isStreaming st = false →
   Msg.isStreaming m ≠ Some true) →
  ∃ m', messages (handleStopGeneration render (st, ab)).1 = ms ++ [m']
        ∧ Msg.id m' = Msg.id m
        ∧ (isStreaming (handleStopGeneration render (st, ab)).1 = false →
           Msg.isStreaming m' ≠ Some true).
Proof.
  intros Hst Hms Hquiet. unfold handleStopGeneration.
  destruct (abortController render) as [c|]; [|by eexists; eauto].
  cbn. rewrite Hst, fmap_app. cbn.
  eexists. split.
  - f_equal. rewrite <- (list_fmap_id ms) at 2. apply list_fmap_ext.
    intros i m0 Hi. cbn.
    rewrite Forall_forall in Hms.
    rewrite bool_decide_eq_false_2; [done|].
    eapply Hms, list_elem_of_lookup_2, Hi.
  - by destruct (bool_decide (Msg.isStreaming m = Some true)) eqn:E;
      [|apply bool_decide_eq_false in E].
Qed.

Lemma step_tidy w ev w' :
  match ev with
  | Handler t _ => tempId <$> last (requests w) = Some t
  | _ => True
  end →
  match ev with
  | Submit _ userId _ _ t _ => t ≠ userId ∧ t ∉ Msg.id <$> messages (page w)
  | _ => True
  end →
  tidy w → step w ev = Some w' → tidy w'.
Proof.
  intros Hlatest Hfresh Hw Hstep.
  destruct ev as [input userId now1 c t now2|t e|].
  - cbn in Hstep.
    destruct (ChatInput.handleSubmit input _ _).2 as [q|] eqn:E; [|by simplify_eq].
    apply handleSubmit_sends in E as (_ & _ & Hs & _).
    destruct Hfresh as [Hne Hnew]. simplify_eq/=. right.
    eexists _, _, _, _. split; [done|]. split; [done|]. cbn.
    split; [done|]. split.
    { rewrite fmap_app, elem_of_app. cbn. rewrite list_elem_of_singleton. tauto. }
    unfold histories. cbn. rewrite fmap_app. cbn.
    destruct Hw as [(Hreq & Hmsgs & _)
                   |(ms & m & rs & r & Hmsgs & Hreq & Hid & Hnot & Hquiet & Hlast
                     & Hpre & Hchain)].
    + rewrite Hmsgs, Hreq. cbn. repeat split.
      * by repeat constructor.
      * done.
      * repeat constructor. apply prefix_nil.
      * apply (chain_snoc [] []); [|constructor]. by intros i j a b _ ?.
    + rewrite Hmsgs. repeat split.
      * rewrite !Forall_app. repeat split; [done|by repeat constructor; auto|].
        by repeat constructor.
      * done.
      * rewrite ?fold_chatHistory. apply Forall_app. split.
        -- eapply Forall_impl; [exact Hpre|]. intros h Hh. cbv beta in *.
           rewrite <- app_assoc, chatHistory_app. by apply prefix_app_r.
        -- repeat constructor. rewrite (chatHistory_app (ms ++ [m])).
           by apply prefix_app_r.
      * rewrite ?fold_chatHistory. apply chain_snoc; [done|].
        eapply Forall_impl; [exact Hpre|]. intros h Hh. cbv beta in *.
        rewrite chatHistory_app. by apply prefix_app_r.
  - cbn in Hstep. case_bool_decide as Hin; [|done].
    destruct (deliver t e (page w)) as [st|] eqn:Hd; simplify_eq/=.
    destruct Hw as [(Hreq & _)
                   |(ms & m & rs & r & Hmsgs & Hreq & Hid & Hnot & Hquiet & Hlast
                     & Hpre & Hchain)].
    { rewrite Hreq in Hin. by apply elem_of_nil in Hin. }
    rewrite Hreq, last_snoc in Hlatest. simplify_eq/=.
    destruct (deliver_last _ _ _ _ ms m Hd Hmsgs) as (m' & Hm' & Hid' & Hlast');
      [done..|].
    right. unfold histories in *. cbn.
    destruct (terminalStatus e) as [s|].
    + destruct (settleWhere_shape (λ r0, bool_decide (tempId r0 = tempId r)) s rs r)
        as (r' & Hshape & Hr').
      exists ms, m', (settleWhere (λ r0, bool_decide (tempId r0 = tempId r)) s rs), r'.
      rewrite settleWhere_histories.
      repeat split; try done; try congruence; by rewrite Hreq.
    + exists ms, m', rs, r. repeat split; try done; congruence.
  - cbn in Hstep.
    destruct Hw as [(Hreq & Hmsgs & Hctl)
                   |(ms & m & rs & r & Hmsgs & Hreq & Hid & Hnot & Hquiet & Hlast
                     & Hpre & Hchain)].
    { unfold handleStopGeneration in Hstep. rewrite Hctl in Hstep.
      simplify_eq/=. by left. }
    destruct (stop_last (page w) (page w) (aborted w) ms m Hmsgs Hquiet)
      as (m' & Hm' & Hid' & Hlast'); [auto|].
    destruct (handleStopGeneration _ _) as [st ab]. simplify_eq/=.
    right. unfold histories in *. cbn.
    destruct (abortController (page w)) as [c|].
    + destruct (settleWhere_shape (λ r0, bool_decide (controller r0 = c))
                  Cancelled rs r) as (r' & Hshape & Hr').
      exists ms, m', (settleWhere (λ r0, bool_decide (controller r0 = c)) Cancelled rs), r'.
      rewrite settleWhere_histories.
      repeat split; try done; try congruence; by rewrite Hreq.
    + exists ms, m', rs, r. repeat split; try done; congruence.
Qed.

Lemma run_tidy evs w w' :
  latestOnly w evs → freshIds w evs → tidy w → run w evs = Some w' → tidy w'.
Proof.
  revert w. induction evs as [|ev evs IH]; intros w Hl Hf Hw Hrun.
  - by simplify_eq/=.
  - cbn in Hrun, Hl, Hf. destruct Hl as [Hev Hl], Hf as [Hnew Hf].
    destruct (step w ev) as [w1|] eqn:E; [|done]. cbn in Hrun.
    eapply IH; [done..| |done]. by eapply step_tidy.
Qed.

(** X13.  The histories sent with the requests of a page only grow: when
    every callback comes from the request started last and the generated
    identifiers are new, the history sent with a request is a beginning
    of the history sent with every later request. *)
Theorem histories_only_grow (uuid : jsstring) (evs : list Event) (w : World) :
  latestOnly (start uuid) evs →
  freshIds (start uuid) evs →
  run (start uuid) evs = Some w →
  ∀ i j a b, (i ≤ j)%nat →
    histories w !! i = Some a → histories w !! j = Some b → a `prefix_of` b.
Proof.
  intros Hl Hf Hrun.
  destruct (run_tidy evs (start uuid) w Hl Hf) as [(Hreq & _)|Hw];
    [by left|done|..].
  - unfold histories. rewrite Hreq. by intros i j a b _ ?.
  - destruct Hw as (ms & m & rs & r & _ & _ & _ & _ & _ & _ & _ & Hchain).
    exact Hchain.
Qed.

(** X14.  Stop cancels the request in flight: when every callback comes
    from the request started last and a request is in flight, a click on
    Stop aborts the signal of that very request, leaves no request in
    flight, and the page no longer streams and holds no controller. *)
Theorem stop_aborts_request_in_flight
    (uuid : jsstring) (evs : list Event) (w : World) (r : Request) :
  latestOnly (start uuid) evs →
  run (start uuid) evs = Some w →
  r ∈ inFlight w →
  ∃ w', step w Stop = Some w'
        ∧ controller r ∈ aborted w'
        ∧ inFlight w' = []
        ∧ isStreaming (page w') = false
        ∧ abortController (page w') = None.
Proof.
  intros Hl Hrun Hr.
  destruct (run_idle_or_busy evs (start uuid) w Hl) as [[Hidle _]|Hbusy];
    [left; by split; [constructor|]|done|..].
  - unfold inFlight in Hr. rewrite (filter_idle _ Hidle) in Hr.
    by apply elem_of_nil in Hr.
  - destruct Hbusy as (rs & r0 & Hreqs & Hrs & Hr0 & Hstr & Hctl).
    assert (r = r0) as ->.
    { unfold inFlight in Hr. rewrite Hreqs, filter_app, (filter_idle rs Hrs) in Hr.
      cbn [app] in Hr. rewrite filter_cons_True in Hr by done.
      by apply list_elem_of_singleton in Hr. }
    eexists. cbn. unfold handleStopGeneration. rewrite Hctl. cbn.
    split; [done|]. cbn. split; [set_solver|]. split; [|done].
    unfold inFlight. cbn. rewrite Hreqs. apply filter_idle.
    apply settleWhere_last; [done|by apply bool_decide_eq_true|done].
Qed.

(** X15.  After a click on Stop and the report of the cancellation by the
    decoder ([onError('Request cancelled')]) the message of the request
    reads exactly "Generation cancelled by user.": the text streamed so
    far, and the note that Stop had added to it, are replaced, and the
    message is one that the filter of the history leaves out. *)
Theorem cancellation_replaces_partial_text
    (render st : State) (ab : gset nat) (t : jsstring) (ms : list Msg.t) (m : Msg.t) :
  messages st = ms ++ [m] → t ∉ Msg.id <$> ms → Msg.id m = t →
  ∃ ms' m',
    messages (onError t (lit "Request cancelled")
                (handleStopGeneration render (st, ab)).1)
    = ms' ++ [m']
    ∧ skeleton ms' = skeleton ms
    ∧ Msg.message m' = cancelledText
    ∧ Msg.isStreaming m' = Some false
    ∧ isError m' = true.
Proof.
  intros Hst Hms Hm.
  assert (∀ st0 ms0 m0, messages st0 = ms0 ++ [m0] → t ∉ Msg.id <$> ms0 →
            Msg.id m0 = t →
            ∃ m', messages (onError t (lit "Request cancelled") st0) = ms0 ++ [m']
                  ∧ Msg.message m' = cancelledText
                  ∧ Msg.isStreaming m' = Some false ∧ isError m' = true) as Hrep.
  { intros st0 ms0 m0 H0 Hms0 Hm0.
    unfold onError, failed, finish, setMessages. cbn [messages]. rewrite H0.
    rewrite (mapTemp_last _ _ _ _ Hms0 Hm0). by eexists. }
  unfold handleStopGeneration. destruct (abortController render) as [c|].
  - cbn [fst].
    set (f := λ msg : Msg.t,
           if bool_decide (Msg.isStreaming msg = Some true)
           then Msg.setIsStreaming false
                  (Msg.setMessage (Msg.message msg ++ [LF; LF] ++ cancelledText) msg)
           else msg).
    assert (∀ l : list Msg.t, Msg.id <$> (f <$> l) = Msg.id <$> l) as Hids.
    { intros l. rewrite <- list_fmap_compose. apply list_fmap_ext.
      intros i x _. unfold f. cbn. by destruct (bool_decide _). }
    edestruct (Hrep (setMessages (fmap f) (finish st)) (f <$> ms) (f m))
      as (m' & Hm' & Htext & Hstr & Herr).
    + cbn. by rewrite Hst, fmap_app.
    + by rewrite Hids.
    + unfold f. by destruct (bool_decide _).
    + exists (f <$> ms), m'. repeat split; try done.
      unfold skeleton. rewrite <- list_fmap_compose. apply list_fmap_ext.
      intros i x _. unfold f. cbn. by destruct (bool_decide _).
  - cbn [fst]. destruct (Hrep st ms m Hst Hms Hm) as (m' & Hm' & ? & ? & ?).
    by exists ms, m'.
Qed.

End TidyFacts.

(* ================================================================== *)
(** * The further statements on sample streams and runs *)

Lemma reads_without_event_line_dispatch_nothing_witness :
  askQuestionStream Json.parse
    (okResponse 200
       ([wire ["event: answer_chunk"]] ++ wire ["data: {'chunk': 'Hi'}"; ""] :: [])
       Closed)
  = askQuestionStream Json.parse
      (okResponse 200 ([wire ["event: answer_chunk"]] ++ []) Closed).
Proof.
  apply (reads_without_event_line_dispatch_nothing Json.parse 200
           [wire ["event: answer_chunk"]] (wire ["data: {'chunk': 'Hi'}"; ""]) []
           Closed).
  apply (bool_decide_unpack _). vm_compute. exact I.
Defined.

Lemma other_lines_are_ignored_witness :
  processChunk Json.parse
    (Sample.beforeCut ++ More.commentLine ++ LF :: Sample.afterCut)
  = processChunk Json.parse (Sample.beforeCut ++ Sample.afterCut).
Proof.
  apply (other_lines_are_ignored Json.parse
           Sample.beforeCut More.commentLine Sample.afterCut).
  - right. vm_compute. reflexivity.
  - apply (bool_decide_unpack _). vm_compute. exact I.
  - vm_compute. reflexivity.
  - vm_compute. reflexivity.
Defined.

Lemma data_lines_share_event_type_witness :
  processChunk Json.parse (encodeMulti (lit "answer_chunk") More.twoPayloads)
  = concat ((λ d, blockEffects Json.parse
                    {| blockEvent := lit "answer_chunk"; blockData := d |})
              <$> More.twoPayloads).
Proof.
  apply (data_lines_share_event_type Json.parse (lit "answer_chunk") More.twoPayloads).
  - apply (bool_decide_unpack _). vm_compute. exact I.
  - apply (bool_decide_unpack _). vm_compute. exact I.
Defined.

(** The two payloads reach [onChunk] one after the other. *)
Example two_payloads_sample :
  processChunk Json.parse (encodeMulti (lit "answer_chunk") More.twoPayloads)
  = [OnChunk (JString (lit "Hel")); OnChunk (JString (lit "lo"))].
Proof. by vm_compute. Qed.

Lemma session_id_never_changes_witness :
  ChatPage.sessionId (App.page Sample.orderlyWorld) = lit "session"
  ∧ Forall (λ r, session_id (App.ask r) = lit "session")
      (App.requests Sample.orderlyWorld).
Proof.
  apply (session_id_never_changes (lit "session") Sample.orderlyRun
           Sample.orderlyWorld).
  vm_compute. reflexivity.
Defined.

Lemma conversation_is_append_only_witness :
  skeleton (ChatPage.messages (App.page More.streamingWorld))
    `prefix_of` skeleton (ChatPage.messages (App.page More.laterWorld)).
Proof.
  apply (conversation_is_append_only More.streamingWorld More.laterRun
           More.laterWorld).
  vm_compute. reflexivity.
Defined.

Lemma callbacks_leave_other_messages_witness :
  length (ChatPage.messages
            (ChatPage.onChunk (lit "id-2") (lit "!") (App.page More.streamingWorld)))
  = length (ChatPage.messages (App.page More.streamingWorld))
  ∧ ∀ i m, ChatPage.messages (App.page More.streamingWorld) !! i = Some m →
           Msg.id m ≠ lit "id-2" →
           ChatPage.messages
             (ChatPage.onChunk (lit "id-2") (lit "!") (App.page More.streamingWorld))
           !! i = Some m.
Proof.
  apply (callbacks_leave_other_messages (lit "id-2") (OnChunk (JString (lit "!")))
           (App.page More.streamingWorld)).
  reflexivity.
Defined.

Lemma blank_input_is_not_sent_witness :
  (ChatInput.handleSubmit More.blankInput false false).2 = None
  ∧ App.step Sample.orderlyWorld
      (App.Submit More.blankInput (lit "id-5") (lit "09:02") 3 (lit "id-6") (lit "09:02"))
    = Some Sample.orderlyWorld.
Proof.
  apply (blank_input_is_not_sent Sample.orderlyWorld More.blankInput).
  repeat constructor.
Defined.

Lemma spinner_until_first_chunk_witness :
  ∃ m1 m2,
    ChatPage.find (lit "id-4")
      (ChatPage.messages
         (ChatPage.handleStreamingResponse Sample.asked (lit "second") 2
            (lit "id-4") (lit "09:01") Sample.asked).1)
    = Some m1
    ∧ ChatMessage.showsSpinner m1 = true
    ∧ ChatPage.find (lit "id-4")
        (ChatPage.messages
           (ChatPage.onChunk (lit "id-4") (lit "Hi")
              (ChatPage.handleStreamingResponse Sample.asked (lit "second") 2
                 (lit "id-4") (lit "09:01") Sample.asked).1))
      = Some m2
    ∧ ChatMessage.showsSpinner m2 = false.
Proof.
  apply (spinner_until_first_chunk Json.parse
           (lit "answer_chunk") (json "{'chunk': 'Hi'}") (lit "Hi")
           Sample.asked Sample.asked (lit "second") (lit "id-4") (lit "09:01") 2).
  - apply (bool_decide_unpack _). vm_compute. exact I.
  - apply list_elem_of_singleton. vm_compute. reflexivity.
Defined.

Lemma histories_only_grow_witness :
  ∃ a b, histories Sample.orderlyWorld !! 0%nat = Some a
         ∧ histories Sample.orderlyWorld !! 1%nat = Some b
         ∧ b ≠ a
         ∧ a `prefix_of` b.
Proof.
  eexists _, _. split; [vm_compute; reflexivity|].
  split; [vm_compute; reflexivity|]. split; [discriminate|].
  apply (histories_only_grow (lit "session") Sample.orderlyRun Sample.orderlyWorld)
    with (i := 0%nat) (j := 1%nat).
  - vm_compute. repeat split.
  - vm_compute. repeat split; intros H; try discriminate H;
      repeat match goal with
             | H' : list_elem_of _ _ |- _ => inversion H'; clear H'
             | H' : _ ∈ _ |- _ => inversion H'; clear H'
             end.
  - vm_compute. reflexivity.
  - apply le_S, le_n.
  - vm_compute. reflexivity.
  - vm_compute. reflexivity.
Defined.

Lemma stop_aborts_request_in_flight_witness :
  ∃ w', App.step More.streamingWorld App.Stop = Some w'
        ∧ App.controller More.streamingRequest ∈ App.aborted w'
        ∧ App.inFlight w' = []
        ∧ ChatPage.isStreaming (App.page w') = false
        ∧ ChatPage.abortController (App.page w') = None.
Proof.
  apply (stop_aborts_request_in_flight (lit "session") More.streamingRun
           More.streamingWorld More.streamingRequest).
  - vm_compute. repeat split.
  - vm_compute. reflexivity.
  - apply list_elem_of_singleton. reflexivity.
Defined.

Lemma cancellation_replaces_partial_text_witness :
  ∃ ms' m',
    ChatPage.messages
      (ChatPage.onError (lit "id-2") (lit "Request cancelled")
         (ChatPage.handleStopGeneration (App.page More.streamingWorld)
            (App.page More.streamingWorld, ∅)).1)
    = ms' ++ [m']
    ∧ skeleton ms' = skeleton [More.questionMessage]
    ∧ Msg.message m' = ChatPage.cancelledText
    ∧ Msg.isStreaming m' = Some false
    ∧ ChatPage.isError m' = true.
Proof.
  apply (cancellation_replaces_partial_text (App.page More.streamingWorld)
           (App.page More.streamingWorld) ∅ (lit "id-2")
           [More.questionMessage] More.answerSoFar).
  - vm_compute. reflexivity.
  - apply (bool_decide_unpack _). vm_compute. exact I.
  - reflexivity.
Defined.

(* ================================================================== *)
(** * A request from the wire to the page *)

Section RequestFacts.

Import ChatPage App.

Variable JSON_parse : jsstring → option JSValue.














End RequestFacts.

(* ================================================================== *)
(** * The decoders of the page, turn by turn *)

Section TurnFacts.

Import ChatPage Net.

Variable JSON_parse : jsstring → option JSValue.

Lemma drain_finished fuel ab (t : jsstring) (s : option nat) tr :
  drain JSON_parse fuel ab
    {| d_temp := t; d_signal := s; d_phase := Finished; d_trace := tr |} = [].
Proof.
  revert tr. induction fuel as [|fuel IH]; intros tr; [done|].
  cbn [drain]. unfold advance. cbn [d_phase d_temp d_signal d_trace app].
  apply IH.
Qed.

Lemma drain_reading fuel (t : jsstring) (s : option nat) rest e tr :
  (length rest < fuel)%nat →
  drain JSON_parse fuel ∅
    {| d_temp := t; d_signal := s; d_phase := Reading rest e; d_trace := tr |}
  = readLoop JSON_parse rest
    ++ match e with Closed => [] | Errored x => catchBlock x end.
Proof.
  assert (∀ s', isAborted ∅ s' = false) as Hab by (by intros [c|]).
  revert fuel tr. induction rest as [|text rest IH]; intros fuel tr Hfuel.
  - destruct fuel as [|fuel]; [cbn in Hfuel; lia|].
    cbn [drain]. unfold advance. cbn [d_phase d_signal]. rewrite Hab.
    cbn [d_temp d_trace]. by rewrite drain_finished, app_nil_r.
  - destruct fuel as [|fuel]; [cbn in Hfuel; lia|].
    cbn [drain]. unfold advance. cbn [d_phase d_signal d_temp d_trace].
    rewrite Hab, IH by (cbn in Hfuel; lia).
    by rewrite readLoop_cons, app_assoc.
Qed.

Lemma drain_S fuel ab d :
  drain JSON_parse (S fuel) ab d
  = (advance JSON_parse ab d).2
    ++ drain JSON_parse fuel ab
         {| d_temp := d_temp d; d_signal := d_signal d;
            d_phase := (advance JSON_parse ab d).1;
            d_trace := d_trace d ++ (advance JSON_parse ab d).2 |}.
Proof. cbn [drain]. by destruct (advance JSON_parse ab d). Qed.

(** Left alone, the turns of a decoder make the calls of
    [askQuestionStream], in its order. *)
Lemma drain_askQuestionStream (t : jsstring) (s : option nat) r :
  drain JSON_parse (turns r) ∅
    {| d_temp := t; d_signal := s; d_phase := Fetching r; d_trace := [] |}
  = askQuestionStream JSON_parse r.
Proof.
  assert (isAborted ∅ s = false) as Hab by (by destruct s).
  destruct r as [e|[] status [b|]]; cbn [turns Nat.add];
    rewrite drain_S; unfold advance; cbn [d_phase d_signal d_temp d_trace];
    rewrite Hab; cbn [fst snd app].
  - unfold askQuestionStream. cbn. by rewrite ?app_nil_r.
  - rewrite drain_reading by lia.
    unfold askQuestionStream. cbn. by destruct (ending b).
  - unfold askQuestionStream. cbn. by rewrite ?app_nil_r.
  - unfold askQuestionStream. cbn. by rewrite ?app_nil_r.
  - unfold askQuestionStream. cbn. by rewrite ?app_nil_r.
Qed.

(** A turn of a decoder whose signal is aborted: the promise it awaits
    rejects, and the [catch] reports the cancellation. *)
Lemma advance_aborted ab d c :
  d_signal d = Some c → c ∈ ab →
  advance JSON_parse ab d
  = (Finished, match d_phase d with Finished => [] | _ => cancelled end).
Proof.
  intros Hs Hc. unfold advance, isAborted. rewrite Hs.
  rewrite bool_decide_eq_true_2 by done. by destruct (d_phase d).
Qed.

Lemma step_aborted w ev w' :
  step JSON_parse w ev = Some w' → aborted w ⊆ aborted w'.
Proof.
  destruct ev as [input userId now1 c t now2 r|i|]; cbn [step].
  - destruct (ChatInput.handleSubmit input _ _).2; intros; by simplify_eq/=.
  - destruct (decoders w !! i) as [d|]; [|done]. cbn.
    destruct (advance JSON_parse (aborted w) d) as [ph out].
    destruct (deliverAll (d_temp d) out (page w)); intros; by simplify_eq/=.
  - unfold handleStopGeneration.
    destruct (abortController (page w)); intros; simplify_eq/=; set_solver.
Qed.

(** What a step does to the [i]-th decoder: its turn, or nothing. *)
Lemma step_decoder w ev w' i d :
  step JSON_parse w ev = Some w' → decoders w !! i = Some d →
  ∃ d', decoders w' !! i = Some d'
        ∧ d_temp d' = d_temp d ∧ d_signal d' = d_signal d
        ∧ ((ev = Advance i
            ∧ d_phase d' = (advance JSON_parse (aborted w) d).1
            ∧ d_trace d' = d_trace d ++ (advance JSON_parse (aborted w) d).2
            ∧ deliverAll (d_temp d) (advance JSON_parse (aborted w) d).2 (page w)
              = Some (page w'))
           ∨ (ev ≠ Advance i ∧ d' = d)).
Proof.
  intros Hstep Hd. destruct ev as [input userId now1 c t now2 r|j|]; cbn [step] in Hstep.
  - exists d. repeat split; [|by right].
    destruct (ChatInput.handleSubmit input _ _).2; simplify_eq/=; [|done].
    by apply lookup_app_l_Some.
  - destruct (decide (j = i)) as [->|Hj].
    + rewrite Hd in Hstep. cbn in Hstep.
      destruct (advance JSON_parse (aborted w) d) as [ph out].
      destruct (deliverAll (d_temp d) out (page w)) as [st|] eqn:E; simplify_eq/=.
      eexists. split; [apply list_lookup_insert_eq; by eapply lookup_lt_Some|].
      repeat split. by left.
    + exists d. repeat split; [|right; split; [congruence|done]].
      destruct (decoders w !! j) as [dj|]; [|done]. cbn in Hstep.
      destruct (advance JSON_parse (aborted w) dj) as [ph out].
      destruct (deliverAll (d_temp dj) out (page w)); simplify_eq/=.
      by rewrite list_lookup_insert_ne.
  - exists d. repeat split; [|by right].
    destruct (handleStopGeneration _ _). by simplify_eq/=.
Qed.

(** The trace of a decoder only grows. *)
Lemma run_trace_grows evs :
  ∀ w w' i d,
    run JSON_parse w evs = Some w' → decoders w !! i = Some d →
    ∃ d' new, decoders w' !! i = Some d'
              ∧ d_trace d' = d_trace d ++ new
              ∧ d_signal d' = d_signal d.
Proof.
  induction evs as [|ev evs IH]; intros w w' i d Hrun Hd.
  - simplify_eq/=. exists d, []. by rewrite app_nil_r.
  - cbn in Hrun. destruct (step JSON_parse w ev) as [w1|] eqn:E; [|done].
    cbn in Hrun.
    destruct (step_decoder w ev w1 i d E Hd) as (d1 & Hd1 & _ & Hs1 & Hcase).
    destruct (IH w1 w' i d1 Hrun Hd1) as (d' & new & Hd' & Htr & Hs).
    destruct Hcase as [(_ & _ & Htr1 & _)|[_ ->]].
    + exists d', ((advance JSON_parse (aborted w) d).2 ++ new).
      split; [done|]. split; [|congruence].
      by rewrite Htr, Htr1, app_assoc.
    + by exists d', new.
Qed.

(** After the signal of a decoder was aborted: whatever happens on the
    page, the decoder makes at most one more call, the report of the
    cancellation, at its next turn, and has then finished. *)
Lemma run_aborted i c evs :
  ∀ w w' d,
    c ∈ aborted w → decoders w !! i = Some d → d_signal d = Some c →
    run JSON_parse w evs = Some w' →
    ∃ d', decoders w' !! i = Some d'
          ∧ (d_phase d = Finished → d' = d)
          ∧ (Advance i ∉ evs → d' = d)
          ∧ (Advance i ∈ evs → d_phase d' = Finished)
          ∧ (d_phase d ≠ Finished → Advance i ∈ evs →
             d_trace d' = d_trace d ++ cancelled).
Proof.
  induction evs as [|ev evs IH]; intros w w' d Hc Hd Hs Hrun.
  - simplify_eq/=. exists d. split; [done|]. split; [done|]. split; [done|].
    split; [by intros ?%elem_of_nil|]. by intros _ ?%elem_of_nil.
  - cbn in Hrun. destruct (step JSON_parse w ev) as [w1|] eqn:E; [|done].
    cbn in Hrun.
    destruct (step_decoder w ev w1 i d E Hd) as (d1 & Hd1 & Ht1 & Hs1 & Hcase).
    assert (c ∈ aborted w1) as Hc1 by (by eapply step_aborted).
    rewrite Hs in Hs1.
    destruct (IH w1 w' d1 Hc1 Hd1 Hs1 Hrun) as (d' & Hd' & Hfin & Hnone & Hsome & Hcan).
    exists d'. split; [done|].
    destruct Hcase as [(-> & Hph & Htr & _)|[Hne ->]].
    + rewrite (advance_aborted _ _ _ Hs Hc) in Hph, Htr. cbn in Hph, Htr.
      specialize (Hfin Hph). subst d'.
      split; [|split; [|split]].
      * intros Hdone. rewrite Hdone in Htr. rewrite app_nil_r in Htr.
        destruct d, d1. cbn in *. congruence.
      * intros Hnot. exfalso. apply Hnot. by left.
      * done.
      * intros Hnot _. rewrite Htr. by destruct (d_phase d).
    + split; [done|]. split; [|split].
      * intros Hnot. apply Hnone. intros Hin. apply Hnot. by right.
      * intros [?|Hin]%elem_of_cons; [done|]. by apply Hsome.
      * intros Hnot [?|Hin]%elem_of_cons; [done|]. by apply Hcan.
Qed.

(** Calls that are not terminal leave the flag and the controller of the
    page as they are. *)
Lemma deliverAll_nonterminal t out :
  ∀ st st',
    deliverAll t out st = Some st' →
    Forall (λ e, isTerminal e = false) out →
    isStreaming st' = isStreaming st ∧ abortController st' = abortController st.
Proof.
  induction out as [|e out IH]; intros st st' Hrun Hout.
  - by simplify_eq/=.
  - apply Forall_cons in Hout as [He Hout]. cbn in Hrun.
    destruct (deliver t e st) as [st1|] eqn:E; [|done]. cbn in Hrun.
    destruct (IH st1 st' Hrun Hout) as [-> ->].
    destruct e as [[]| |[]|]; by simplify_eq/=.
Qed.

(** While the decoder of a request has made no terminal call, and nothing
    else happens on the page, the page keeps the controller of the
    request. *)
Lemma run_wired i c evs :
  ∀ w w' d d',
    undisturbed i evs →
    run JSON_parse w evs = Some w' →
    decoders w !! i = Some d → d_signal d = Some c →
    abortController (page w) = Some c → isStreaming (page w) = true →
    decoders w' !! i = Some d' →
    Forall (λ e, isTerminal e = false) (d_trace d') →
    abortController (page w') = Some c ∧ d_signal d' = Some c.
Proof.
  induction evs as [|ev evs IH]; intros w w' d d' Hund Hrun Hd Hs Hab Hstr Hd' Htr.
  - by simplify_eq/=.
  - apply Forall_cons in Hund as [Hev Hund].
    cbn in Hrun. destruct (step JSON_parse w ev) as [w1|] eqn:E; [|done].
    cbn in Hrun.
    destruct (step_decoder w ev w1 i d E Hd) as (d1 & Hd1 & _ & Hs1 & Hcase).
    rewrite Hs in Hs1.
    destruct (run_trace_grows evs w1 w' i d1 Hrun Hd1) as (d2 & new & Hd2 & Hnew & _).
    assert (d2 = d') as -> by congruence.
    destruct Hcase as [(-> & _ & Htr1 & Hpage)|[Hne ->]].
    + pose proof Htr as Hall. rewrite Hnew, Htr1 in Htr.
      apply Forall_app in Htr as [Htr _]. apply Forall_app in Htr as [_ Hout].
      destruct (deliverAll_nonterminal _ _ _ _ Hpage Hout) as [Hstr1 Hab1].
      eapply (IH w1 w' d1 d'); try done; congruence.
    + destruct ev as [input userId now1 c' t now2 r|j|]; [| |done].
      * cbn in E. unfold ChatInput.handleSubmit in E.
        rewrite Hstr, andb_false_r in E. simplify_eq/=. by eapply IH.
      * by subst j.
Qed.

Lemma advance_in_dec i (evs : list Event) : Advance i ∈ evs ∨ Advance i ∉ evs.
Proof.
  induction evs as [|ev evs [IH|IH]].
  - right. by intros ?%elem_of_nil.
  - left. by right.
  - destruct ev as [input userId now1 c t now2 r|j|].
    + right. by intros [?|?]%elem_of_cons.
    + destruct (decide (j = i)) as [->|Hj]; [left; by left|].
      right. intros [?|?]%elem_of_cons; [congruence|done].
    + right. by intros [?|?]%elem_of_cons.
Qed.

(** C5.  The signal Stop aborts is the one the decoder of the request gave
    to [fetch]: from the submission on, as long as the decoder has made no
    terminal call and nothing else happens on the page, the controller in
    the state of the page is the one whose signal the decoder holds.  When
    Stop is clicked in such a state, then whatever happens on the page
    afterwards, the decoder makes no call but one: the report of the
    cancellation by its own [catch], at its next turn, after which it has
    finished.  No chunk is delivered beyond those the caller had
    received, and no completion and no error of the stream. *)
Theorem abort_stops_delivery :
  (∀ (w0 : World) (input userId now1 : jsstring) (c : nat) (t now2 : jsstring)
     (r : FetchResult) (evs : list Event) (w : World) (d : Decoder),
     isStreaming (page w0) = false → trim input ≠ [] →
     undisturbed (length (decoders w0)) evs →
     run JSON_parse w0 (Submit input userId now1 c t now2 r :: evs) = Some w →
     decoders w !! length (decoders w0) = Some d →
     Forall (λ e, isTerminal e = false) (d_trace d) →
     d_signal d = Some c ∧ abortController (page w) = Some c)
  ∧ (∀ (w : World) (i : nat) (d : Decoder) (c : nat) (evs : list Event) (w' : World),
       decoders w !! i = Some d → d_signal d = Some c →
       abortController (page w) = Some c →
       run JSON_parse w (Stop :: evs) = Some w' →
       ∃ d' tail,
         decoders w' !! i = Some d'
         ∧ d_trace d' = d_trace d ++ tail
         ∧ (tail = [] ∨ tail = [OnError (JString (lit "Request cancelled"))])
         ∧ chunksOf (d_trace d') = chunksOf (d_trace d)
         ∧ (Advance i ∈ evs → d_phase d' = Finished)
         ∧ (d_phase d ≠ Finished → Advance i ∈ evs →
            tail = [OnError (JString (lit "Request cancelled"))])
         ∧ (d_phase d = Finished ∨ Advance i ∉ evs → tail = [])).
Proof.
  split.
  - intros w0 input userId now1 c t now2 r evs w d Hidle Hq Hund Hrun Hd Htr.
    cbn [run step] in Hrun. unfold ChatInput.handleSubmit in Hrun.
    rewrite Hidle, (nonEmpty_true _ Hq) in Hrun.
    cbn [andb negb snd handleSendMessage handleStreamingResponse mbind option_bind]
      in Hrun.
    destruct (run_wired (length (decoders w0)) c evs _ w
                {| d_temp := t; d_signal := Some c; d_phase := Fetching r;
                   d_trace := [] |} d Hund Hrun) as [H1 H2];
      [|reflexivity|reflexivity|reflexivity|exact Hd|exact Htr|by split].
    cbn. by rewrite lookup_app_r, Nat.sub_diag.
  - intros w i d c evs w' Hd Hs Hab Hrun.
    cbn [run step] in Hrun. unfold handleStopGeneration in Hrun.
    rewrite Hab in Hrun. cbn in Hrun.
    edestruct (run_aborted i c evs) as (d' & Hd' & Hfin & Hnone & Hsome & Hcan);
      [| |exact Hs|exact Hrun|]; [cbn; set_solver|exact Hd|].
    assert ((Advance i ∈ evs ∧ d_phase d ≠ Finished)
            ∨ (d_phase d = Finished ∨ Advance i ∉ evs)) as [[Hin Hph]|Hno].
    { destruct (advance_in_dec i evs) as [Hin|Hnot]; [|by right; right].
      destruct (d_phase d) eqn:Eph; [by left..|by right; left]. }
    + exists d', cancelled. rewrite (Hcan Hph Hin).
      split; [done|]. split; [done|]. split; [by right|].
      split; [unfold chunksOf; by rewrite omap_app, app_nil_r|].
      split; [done|]. split; [done|]. intros [?|?]; done.
    + assert (d' = d) as -> by (destruct Hno; auto).
      exists d, []. rewrite app_nil_r.
      split; [done|]. split; [done|]. split; [by left|]. split; [done|].
      split; [done|]. split; [|done].
      intros Hph Hin. by destruct Hno.
Qed.

End TurnFacts.

(* ================================================================== *)
(** * The request, the stop and the history on sample inputs *)



Lemma abort_stops_delivery_witness :
  (Net.d_signal Net.streamingDecoder = Some 1%nat
   ∧ ChatPage.abortController (Net.page Net.streamingWorld) = Some 1%nat)
  ∧ ∃ d' tail,
      Net.decoders Net.stoppedWorld !! 0%nat = Some d'
      ∧ Net.d_trace d' = Net.d_trace Net.streamingDecoder ++ tail
      ∧ (tail = [] ∨ tail = [OnError (JString (lit "Request cancelled"))])
      ∧ chunksOf (Net.d_trace d') = chunksOf (Net.d_trace Net.streamingDecoder)
      ∧ (Net.Advance 0 ∈ Net.afterStop → Net.d_phase d' = Net.Finished)
      ∧ (Net.d_phase Net.streamingDecoder ≠ Net.Finished →
         Net.Advance 0 ∈ Net.afterStop →
         tail = [OnError (JString (lit "Request cancelled"))])
      ∧ (Net.d_phase Net.streamingDecoder = Net.Finished
         ∨ Net.Advance 0 ∉ Net.afterStop → tail = []).
Proof.
  split.
  - apply (proj1 (abort_stops_delivery Json.parse)
             (Net.start (lit "session")) (lit "first") (lit "id-1") (lit "09:00") 1%nat
             (lit "id-2") (lit "09:00") (okResponse 200 Sample.twoReads Closed)
             [Net.Advance 0; Net.Advance 0] Net.streamingWorld Net.streamingDecoder).
    + reflexivity.
    + vm_compute. discriminate.
    + repeat constructor.
    + vm_compute. reflexivity.
    + vm_compute. reflexivity.
    + repeat constructor.
  - apply (proj2 (abort_stops_delivery Json.parse)
             Net.streamingWorld 0%nat Net.streamingDecoder 1%nat Net.afterStop
             Net.stoppedWorld).
    + vm_compute. reflexivity.
    + reflexivity.
    + vm_compute. reflexivity.
    + vm_compute. reflexivity.
Defined.

(** Without the signal the decoder goes on after the click on Stop: the
    rest of the body is delivered. *)
Example abort_needs_the_signal :
  (λ w, Net.d_trace <$> Net.decoders w)
    <$> Net.run Json.parse Net.unwiredWorld (Net.Stop :: Net.afterStop)
  = Some [[OnChunk (JString (lit "Hel")); OnChunk (JString (lit "lo"));
           OnComplete (JArray []) (JString (lit "s1"))]]
  ∧ (λ w, Net.d_trace <$> Net.decoders w)
      <$> Net.run Json.parse Net.streamingWorld (Net.Stop :: Net.afterStop)
    = Some [[OnChunk (JString (lit "Hel"));
             OnError (JString (lit "Request cancelled"))]].
Proof. split; vm_compute; reflexivity. Qed.

(** The turns of a decoder that is left alone, on a sample body. *)
Example turns_sample :
  Net.drain Json.parse (Net.turns (okResponse 200 Sample.twoReads Closed)) ∅
    {| Net.d_temp := lit "id-2"; Net.d_signal := Some 1%nat;
       Net.d_phase := Net.Fetching (okResponse 200 Sample.twoReads Closed);
       Net.d_trace := [] |}
  = [OnChunk (JString (lit "Hel")); OnChunk (JString (lit "lo"));
     OnComplete (JArray []) (JString (lit "s1"))].
Proof. by vm_compute. Qed.

(** C8, as stated, fails.  The filter looks for the two phrases anywhere
    in the text of any message: a question of the user that quotes the
    cancellation text, and an answer that quotes the beginning of the
    error text, are left out of the history although they are no
    placeholders of the page. *)
Lemma quoted_phrase_is_dropped :
  Msg.isUser Quote.question = true
  ∧ Quote.question ∈ ChatPage.messages Quote.rendered
  ∧ Quote.answer ∈ ChatPage.messages Quote.rendered
  ∧ chat_history
      (ChatPage.handleStreamingResponse Quote.rendered (lit "next") 5
         (lit "id-12") (lit "09:06") Quote.rendered).2
    = [ChatPage.toTurn More.questionMessage]
  ∧ ¬ userMessagesKept.
Proof.
  split; [reflexivity|].
  split; [right; left|].
  split; [right; right; left|].
  split; [vm_compute; reflexivity|].
  intros H.
  specialize (H [Quote.question] Quote.question ltac:(by left) eq_refl).
  vm_compute in H. inversion H.
Qed.
